(** * The credential database of the auth service (auth/db.go)

    A shallow embedding of [auth/db.go]: the version-tagged base32 codec of
    encryption keys ([FromBase32], [ToBase32]) and the database facade
    ([NewDatabase], [RemoveNodeIDs], [Put], [Get], [Delete], [Invalidate]).

    The Go packages the file calls are modelled next to it:
    - [errs]: the error values of github.com/zeebo/errs,
    - [gostrings]: [strings.ToUpper] and [strings.ToLower],
    - [base32]: [encoding/base32], with its quantum packing written on bytes,
    - the key/value store, the grant parser, the node URL parser, the
      encryption library, SHA-256 and the random source are parameters. *)

From Stdlib Require Import ZArith Lia Bool List String Ascii DecimalString.
From Stdlib.Strings Require Import Byte.
From stdpp Require Import gmap strings.
Import ListNotations.

Local Open Scope string_scope.
Local Open Scope list_scope.
Local Open Scope Z_scope.

#[global] Instance byte_eq_dec : EqDecision byte := Byte.byte_eq_dec.

(** ** Bytes

    Go's [byte] is an 8-bit unsigned integer.  Arithmetic is done on [Z] and
    converted back with truncation to 8 bits, as Go does for [uint8]. *)

Definition b2z (b : byte) : Z := Z.of_N (Byte.to_N b).

Definition z2b (z : Z) : byte :=
  match Byte.of_N (Z.to_N (z mod 256)) with
  | Some b => b
  | None => x00
  end.

(** [a << n], [a >> n], [a & b], [a | b] on bytes. *)
Definition shl (a : byte) (n : Z) : byte := z2b (Z.shiftl (b2z a) n).
Definition shr (a : byte) (n : Z) : byte := z2b (Z.shiftr (b2z a) n).
Definition band (a b : byte) : byte := z2b (Z.land (b2z a) (b2z b)).
Definition bor (a b : byte) : byte := z2b (Z.lor (b2z a) (b2z b)).

Definition byte_eqb (a b : byte) : bool := Byte.eqb a b.

(** [copy(dst, src)]: the first [min (len dst) (len src)] elements of [dst]
    are overwritten, the rest of [dst] is kept. *)
Definition copy {A} (dst src : list A) : list A :=
  let n := Nat.min (List.length dst) (List.length src) in
  firstn n src ++ skipn n dst.

(** A zero-initialised array [[n]byte]. *)
Definition zeros (n : nat) : list byte := repeat x00 n.

(** An array literal [[n]byte{v...}]: the listed elements, then zeros. *)
Definition array_lit (n : nat) (vs : list byte) : list byte :=
  vs ++ zeros (n - List.length vs).

(** [[]byte(s)] and [string(b)]. *)
Definition bytes_of (s : string) : list byte := list_byte_of_string s.
Definition string_of (b : list byte) : string := string_of_list_byte b.

(** ** github.com/zeebo/errs *)

Module errs.

(** An error class, [errs.Class(name)]. *)
Inductive Class : Type := MkClass (name : string).

#[global] Instance Class_eq_dec : EqDecision Class.
Proof. solve_decision. Defined.

(** An error value: either an error of another package (seen only through
    its message), or the library's [errorT], which carries an optional
    class and the error it wraps. *)
Inductive error : Type :=
| plain (msg : string)
| errorT (class : option Class) (err : error).

(** The constructor behind [New] and [Wrap]: an [errorT] that already has the
    wanted class (or any [errorT] when no class is wanted) is returned as
    it is. *)
Definition create (c : option Class) (err : error) : error :=
  match err with
  | errorT c' _ =>
      match c with
      | None => err
      | Some _ => if decide (c' = c) then err else errorT c err
      end
  | plain _ => errorT c err
  end.

(** [errs.New(format, args...)], the message already formatted. *)
Definition New (msg : string) : error := create None (plain msg).

(** [errs.Wrap(err)] for a non-nil [err]. *)
Definition Wrap (err : error) : error := create None err.

(** [class.New(format, args...)]. *)
Definition Class_New (c : Class) (msg : string) : error :=
  create (Some c) (plain msg).

(** [class.Has(err)]: some [errorT] in the chain carries the class. *)
Fixpoint Has (c : Class) (err : error) : bool :=
  match err with
  | plain _ => false
  | errorT c' inner =>
      if decide (c' = Some c) then true else Has c inner
  end.

(** [errs.Wrap] of a possibly nil error: nil stays nil. *)
Definition Wrap_opt (err : option error) : option error :=
  match err with
  | None => None
  | Some e => Some (Wrap e)
  end.

End errs.

(** ** Formatting verbs used by the messages of db.go *)

(** [%d] of a non-negative int. *)
Definition fmt_d (n : nat) : string :=
  DecimalString.NilEmpty.string_of_uint (Nat.to_uint n).

Definition hex_digit (z : Z) : ascii :=
  if z <? 10 then ascii_of_N (Z.to_N (48 + z)) else ascii_of_N (Z.to_N (87 + z)).

(** [%x] of a byte array: two lower-case hexadecimal digits per byte. *)
Fixpoint fmt_x (bs : list byte) : string :=
  match bs with
  | [] => EmptyString
  | b :: rest =>
      String (hex_digit (Z.shiftr (b2z b) 4))
        (String (hex_digit (Z.land (b2z b) 15)) (fmt_x rest))
  end.

(** ** strings.ToUpper and strings.ToLower

    Both have a fast path for strings made of ASCII bytes only, which is
    modelled exactly.  A string with a byte of 0x80 or more goes through
    Unicode case mapping, which is left as a parameter. *)

Module gostrings.
Section unicode.

Variables unicode_ToUpper unicode_ToLower : string -> string.

(** [utf8.RuneSelf] *)
Definition RuneSelf : Z := 128.

Definition isASCII (bs : list byte) : bool :=
  forallb (fun c => b2z c <? RuneSelf) bs.

Definition is_lower (c : byte) : bool := (97 <=? b2z c) && (b2z c <=? 122).
Definition is_upper (c : byte) : bool := (65 <=? b2z c) && (b2z c <=? 90).

(** [c -= 'a' - 'A'] and [c += 'a' - 'A'] *)
Definition upper_byte (c : byte) : byte :=
  if is_lower c then z2b (b2z c - 32) else c.
Definition lower_byte (c : byte) : byte :=
  if is_upper c then z2b (b2z c + 32) else c.

Definition ToUpper (s : string) : string :=
  let bs := bytes_of s in
  if isASCII bs then
    if negb (existsb is_lower bs) then s
    else string_of (map upper_byte bs)
  else unicode_ToUpper s.

Definition ToLower (s : string) : string :=
  let bs := bytes_of s in
  if isASCII bs then
    if negb (existsb is_upper bs) then s
    else string_of (map lower_byte bs)
  else unicode_ToLower s.

End unicode.
End gostrings.

(** ** encoding/base32

    The encoder and decoder of Go's standard library, for an [Encoding] with
    any alphabet and padding character.  The decoder is the library's: it
    drops carriage returns and line feeds before decoding, it does not look
    at the bits of the last character that do not fill a byte, and without
    padding a last group of 1, 3 or 6 characters yields no byte. *)

Module base32.

Definition encodeStd : string := "ABCDEFGHIJKLMNOPQRSTUVWXYZ234567".

Definition StdPadding : Z := 61.
Definition NoPadding : Z := -1.

Record Encoding : Type := {
  encode : list byte;
  decodeMap : list byte;
  padChar : Z
}.

(** The second loop of [NewEncoding]: [decodeMap[encoder[i]] = byte(i)]. *)
Fixpoint fill_decodeMap (encoder : list byte) (i : nat) (m : list byte)
  : list byte :=
  match encoder with
  | [] => m
  | c :: rest =>
      fill_decodeMap rest (S i) (<[Z.to_nat (b2z c) := z2b (Z.of_nat i)]> m)
  end.

Definition NewEncoding (encoder : string) : Encoding :=
  {| encode := bytes_of encoder;
     decodeMap := fill_decodeMap (bytes_of encoder) 0 (repeat xff 256);
     padChar := StdPadding |}.

Definition WithPadding (enc : Encoding) (padding : Z) : Encoding :=
  {| encode := encode enc; decodeMap := decodeMap enc; padChar := padding |}.

Definition StdEncoding : Encoding := NewEncoding encodeStd.

(** [enc.encode[b&31]] and [enc.decodeMap[in]] *)
Definition encode_at (enc : Encoding) (b : byte) : byte :=
  nth (Z.to_nat (b2z (band b x1f))) (encode enc) x00.
Definition decode_at (enc : Encoding) (c : byte) : byte :=
  nth (Z.to_nat (b2z c)) (decodeMap enc) xff.

(** [byte(enc.padChar)]: the conversion keeps the low 8 bits. *)
Definition padByte (enc : Encoding) : byte := z2b (padChar enc).

Definition EncodedLen (enc : Encoding) (n : nat) : nat :=
  if padChar enc =? NoPadding then (n * 8 + 4) / 5 else (n + 4) / 5 * 8.

(** The switch of [Encode] on [len(src)], with its fall-through: a quantum
    of up to 5 source bytes is unpacked into 8 blocks of 5 bits. *)
Definition unpack (src : list byte) : list byte :=
  let n := List.length src in
  let s i := nth i src x00 in
  let c5 := (5 <=? n)%nat in
  let c4 := c5 || (n =? 4)%nat in
  let c3 := c4 || (n =? 3)%nat in
  let c2 := c3 || (n =? 2)%nat in
  let c1 := c2 || (n =? 1)%nat in
  (* default: *)
  let b7 := if c5 then band (s 4%nat) x1f else x00 in
  let b6 := if c5 then shr (s 4%nat) 5 else x00 in
  (* case 4: *)
  let b6 := if c4 then bor b6 (band (shl (s 3%nat) 3) x1f) else b6 in
  let b5 := if c4 then band (shr (s 3%nat) 2) x1f else x00 in
  let b4 := if c4 then shr (s 3%nat) 7 else x00 in
  (* case 3: *)
  let b4 := if c3 then bor b4 (band (shl (s 2%nat) 1) x1f) else b4 in
  let b3 := if c3 then band (shr (s 2%nat) 4) x1f else x00 in
  (* case 2: *)
  let b3 := if c2 then bor b3 (band (shl (s 1%nat) 4) x1f) else b3 in
  let b2 := if c2 then band (shr (s 1%nat) 1) x1f else x00 in
  let b1 := if c2 then band (shr (s 1%nat) 6) x1f else x00 in
  (* case 1: *)
  let b1 := if c1 then bor b1 (band (shl (s 0%nat) 2) x1f) else b1 in
  let b0 := if c1 then shr (s 0%nat) 3 else x00 in
  [b0; b1; b2; b3; b4; b5; b6; b7].

(** The number of characters of a last quantum of [n < 5] bytes that are
    not overwritten by padding. *)
Definition unpadded (n : nat) : nat :=
  match n with
  | 1 => 2 | 2 => 4 | 3 => 5 | 4 => 7 | _ => 8
  end%nat.

(** [Encode(dst, src)] with [size = len(dst)]; the result is what was
    written to [dst]. *)
Fixpoint Encode (enc : Encoding) (size : nat) (src : list byte)
  : list byte :=
  match src with
  | [] => []
  | _ :: _ =>
      let out := firstn (Nat.min 8 size) (map (encode_at enc) (unpack src)) in
      match src with
      | _ :: _ :: _ :: _ :: _ :: rest => out ++ Encode enc (size - 8) rest
      | _ =>
          if padChar enc =? NoPadding then out
          else
            let d := unpadded (List.length src) in
            firstn d out ++ repeat (padByte enc) (8 - d)
      end
  end.

Definition EncodeToString (enc : Encoding) (src : list byte) : string :=
  string_of (Encode enc (EncodedLen enc (List.length src)) src).

(** [CorruptInputError(offset)] *)
Definition CorruptInputError (offset : Z) : errs.error :=
  errs.plain ("illegal base32 data at input byte " +:+
              (if offset <? 0 then "-" else "") +:+ fmt_d (Z.abs_nat offset)).

(** The switch of [decode] on [dlen], with its fall-through: 8 blocks of 5
    bits are packed into up to 5 bytes. [dbuf] is a zeroed [[8]byte] of
    which the first [dlen] entries were read. *)
Definition pack (dbuf : list byte) (dlen : nat) : list byte :=
  let d i := nth i dbuf x00 in
  let d4 := bor (shl (d 6%nat) 5) (d 7%nat) in
  let d3 := bor (bor (shl (d 4%nat) 7) (shl (d 5%nat) 2)) (shr (d 6%nat) 3) in
  let d2 := bor (shl (d 3%nat) 4) (shr (d 4%nat) 1) in
  let d1 := bor (bor (shl (d 1%nat) 6) (shl (d 2%nat) 1)) (shr (d 3%nat) 4) in
  let d0 := bor (shl (d 0%nat) 3) (shr (d 1%nat) 2) in
  match dlen with
  | 8 => [d0; d1; d2; d3; d4]
  | 7 => [d0; d1; d2; d3]
  | 5 => [d0; d1; d2]
  | 4 => [d0; d1]
  | 2 => [d0]
  | _ => []
  end%nat.

(** The padding check of [decode]: the first [k < 8-1-j] with
    [len(src) > k] and [src[k] != padChar]. *)
Fixpoint bad_padding (enc : Encoding) (src : list byte) (k : nat) (n : nat)
  : option nat :=
  match n, src with
  | S n', c :: src' =>
      if byte_eqb c (padByte enc) then bad_padding enc src' (S k) n'
      else Some k
  | _, _ => None
  end.

(** [decode(dst, src)]: the two nested loops as one recursion on [src].
    [j] is the position in the current quantum and [dbuf] the blocks read
    so far; [j = 0] is the head of the outer loop.  The result is the bytes
    written and the error.  (In [DecodeString] [dst] and [src] are the same
    buffer; the 5 bytes of a quantum are written after its 8 characters
    were read and before the next are, so no unread input is lost.) *)
Fixpoint decode (enc : Encoding) (olen : Z) (j : nat) (dbuf : list byte)
                (src : list byte) : list byte * option errs.error :=
  match src with
  | [] =>
      match j with
      | O => ([], None)
      | _ =>
          if padChar enc =? NoPadding then (pack dbuf j, None)
          else ([], Some (CorruptInputError (olen - 0 - Z.of_nat j)))
      end
  | c :: src' =>
      let len := Z.of_nat (List.length src') in
      if byte_eqb c (padByte enc) && (2 <=? j)%nat && (len <? 8) then
        if len + Z.of_nat j <? 8 - 1 then
          ([], Some (CorruptInputError olen))
        else
          match bad_padding enc src' 0 (8 - 1 - j) with
          | Some k =>
              ([], Some (CorruptInputError (olen - len + Z.of_nat k - 1)))
          | None =>
              if (j =? 1)%nat || (j =? 3)%nat || (j =? 6)%nat then
                ([], Some (CorruptInputError (olen - len - 1)))
              else (pack dbuf j, None)
          end
      else
        let v := decode_at enc c in
        if byte_eqb v xff then
          ([], Some (CorruptInputError (olen - len - 1)))
        else
          match j with
          | 7%nat =>
              let '(d, e) := decode enc olen 0 [] src' in
              (pack (dbuf ++ [v]) 8 ++ d, e)
          | _ => decode enc olen (S j) (dbuf ++ [v]) src'
          end
  end.

Definition stripNewlines (src : list byte) : list byte :=
  List.filter (fun b => negb (byte_eqb b x0d || byte_eqb b x0a)) src.

Definition DecodeString (enc : Encoding) (s : string)
  : list byte * option errs.error :=
  let src := stripNewlines (bytes_of s) in
  decode enc (Z.of_nat (List.length src)) 0 [] src.

End base32.

(** ** Libraries called by db.go

    [storj.io/common/storj], [storj.io/common/encryption] and
    [storj.io/uplink/private/access2] are other modules; their types are
    modelled here and their functions are parameters of the database. *)

(** A Go result [(value, err)] of a call whose value is not used when [err]
    is not nil. *)
Inductive result (A : Type) : Type :=
| Ok (a : A)
| Err (e : errs.error).
Arguments Ok {A} a.
Arguments Err {A} e.

Module storj.

(** [storj.KeySize], [storj.NonceSize] and the size of the nonce that
    AES-GCM takes from the front of a [storj.Nonce]. *)
Definition KeySize : nat := 32.
Definition NonceSize : nat := 24.
Definition AESGCMNonceSize : nat := 12.

Inductive CipherSuite : Type :=
| EncUnspecified | EncNull | EncAESGCM | EncSecretBox | EncNullBase64URL.

(** [storj.NodeURL] *)
Record NodeURL : Type := {
  ID : list byte;
  Address : string
}.

(** [encryption.ToAESGCMNonce]: the first 12 bytes of the nonce. *)
Definition ToAESGCMNonce (nonce : list byte) : list byte :=
  copy (zeros AESGCMNonceSize) (firstn AESGCMNonceSize nonce).

End storj.

Module access2.

(** What db.go reads of a parsed access grant: [SatelliteAddress] and
    [APIKey.Head()]. *)
Record Access : Type := {
  SatelliteAddress : string;
  APIKey_Head : list byte
}.

End access2.

(** [crypto/rand.Read(b)] fills [b] from the system's random source, or
    returns an error after fewer than [len(b)] bytes.  What the source
    delivers is an input of the model. *)
Record entropy : Type := {
  rand_bytes : list byte;
  rand_err : errs.error
}.

Definition rand_Read (r : entropy) (b : list byte)
  : list byte * option errs.error :=
  (copy b (rand_bytes r),
   if (List.length b <=? List.length (rand_bytes r))%nat then None
   else Some (rand_err r)).

(** ** auth/db.go *)

Module auth.

Definition NotFound : errs.Class := errs.MkClass "not found".

Definition base32Encoding : base32.Encoding :=
  base32.WithPadding base32.StdEncoding base32.NoPadding.

Definition encKeySizeEncoded : nat := 28.
Definition encKeyVersionByte : byte := x4d.
Definition secKeyVersionByte : byte := x4e.

(** [EncryptionKey] is [[16]byte], [SecretKey] and [KeyHash] are
    [[32]byte]. *)
Definition EncryptionKey : Type := list byte.
Definition SecretKey : Type := list byte.
Definition KeyHash : Type := list byte.

(** The record of the key/value store, with the fields db.go sets. *)
Record Record : Type := {
  SatelliteAddress : string;
  MacaroonHead : list byte;
  EncryptedSecretKey : list byte;
  EncryptedAccessGrant : list byte;
  Public : bool
}.

(** Modelled from the spec: the interface [KV] of the record store (spec
    4.5).  db.go calls its five methods; the declaration of the interface and
    the backends are in other files of the package.  [S] is the state of the
    backend; [Get] and [Ping] only read it. *)
Class KV (S : Type) : Type := {
  kv_Put : S -> KeyHash -> Record -> option errs.error * S;
  kv_Get : S -> KeyHash -> option Record * option errs.error;
  kv_Delete : S -> KeyHash -> option errs.error * S;
  kv_Invalidate : S -> KeyHash -> string -> option errs.error * S;
  kv_Ping : S -> option errs.error
}.

(** How a function ends: it returns (with an error or nil), or it
    panics. *)
Inductive outcome : Type :=
| Return (err : option errs.error)
| Panic (msg : string).

(** [ToBase32(versionByte, k)] *)
Definition ToBase32_with (unicode_ToLower : string -> string)
    (versionByte : byte) (k : list byte) : string :=
  let keyWithMagic := [versionByte] ++ k in
  gostrings.ToLower unicode_ToLower
    (base32.EncodeToString base32Encoding keyWithMagic).

Section db.

Variables unicode_ToUpper unicode_ToLower : string -> string.
Variable Sum256 : list byte -> list byte.
Variable ParseAccess : string -> result access2.Access.
Variable ParseNodeURL : string -> result storj.NodeURL.
Variables Encrypt Decrypt :
  list byte -> storj.CipherSuite -> list byte -> list byte ->
  result (list byte).

(** [NewEncryptionKey()]: the array starts with the version byte and is
    then filled from the random source. *)
Definition NewEncryptionKey (rnd : entropy)
  : EncryptionKey * option errs.error :=
  let key := array_lit 16 [encKeyVersionByte] in
  rand_Read rnd key.

(** [k.Hash()] *)
Definition Hash (k : EncryptionKey) : KeyHash := Sum256 k.

(** [k.FromBase32(encoded)]: the receiver after the call, and how the call
    ended.  Indexing an empty [data] panics. *)
Definition FromBase32 (k : EncryptionKey) (encoded : string)
  : EncryptionKey * outcome :=
  if negb (String.length encoded =? encKeySizeEncoded)%nat then
    (k, Return (Some (errs.New
      ("alphanumeric encryption key length expected to be " +:+
       fmt_d encKeySizeEncoded +:+ ", was " +:+
       fmt_d (String.length encoded)))))
  else
    let '(data, err) :=
      base32.DecodeString base32Encoding
        (gostrings.ToUpper unicode_ToUpper encoded) in
    match err with
    | Some err => (k, Return (Some (errs.Wrap err)))
    | None =>
        match data with
        | [] => (k, Panic "index out of range [0] with length 0")
        | d0 :: data1 =>
            if negb (byte_eqb d0 encKeyVersionByte) then
              (k, Return (Some (errs.New
                "encryption key did not start with expected byte")))
            else (copy k data1, Return None)
        end
    end.

(** [k.ToBase32()] and [s.ToBase32()] *)
Definition ToBase32 (k : EncryptionKey) : string :=
  ToBase32_with unicode_ToLower encKeyVersionByte k.
Definition SecretKey_ToBase32 (s : SecretKey) : string :=
  ToBase32_with unicode_ToLower secKeyVersionByte s.

(** [k.ToStorjKey()] *)
Definition ToStorjKey (k : EncryptionKey) : list byte :=
  let storjKey := zeros storj.KeySize in
  copy storjKey k.

(** The nonces [storj.Nonce{}] and [storj.Nonce{1}]. *)
Definition nonce_secret : list byte := array_lit storj.NonceSize [].
Definition nonce_grant : list byte := array_lit storj.NonceSize [x01].

Context {S : Type} `{KV S}.

Record Database : Type := {
  kv : S;
  allowedSatelliteAddresses : gset string
}.

Definition NewDatabase (kv : S) (allowedSatelliteAddresses : list string)
  : Database :=
  let m := fold_left (fun (m : gset string) sat => {[ sat ]} ∪ m)
             allowedSatelliteAddresses ∅ in
  {| kv := kv; allowedSatelliteAddresses := m |}.

Fixpoint RemoveNodeIDs_from (ss : list string) (p : list string)
  : list string * option errs.error :=
  match ss with
  | [] => (p, None)
  | s :: rest =>
      match ParseNodeURL s with
      | Err err => ([], Some err)
      | Ok url => RemoveNodeIDs_from rest (p ++ [storj.Address url])
      end
  end.

Definition RemoveNodeIDs (ss : list string)
  : list string * option errs.error :=
  RemoveNodeIDs_from ss [].

Definition with_kv (db : Database) (kv' : S) : Database :=
  {| kv := kv'; allowedSatelliteAddresses := allowedSatelliteAddresses db |}.

(** [db.Put(ctx, key, accessGrant, public)]: the results
    [(secretKey, err)] and the database after the call.  (The deferred
    [mon.Task] only records the call.) *)
Definition Put (db : Database) (key : EncryptionKey) (accessGrant : string)
    (public : bool) (rnd : entropy)
  : (SecretKey * option errs.error) * Database :=
  let secretKey := zeros 32 in
  match ParseAccess accessGrant with
  | Err err => ((secretKey, Some err), db)
  | Ok access =>
      let satelliteAddr := access2.SatelliteAddress access in
      match ParseNodeURL satelliteAddr with
      | Err err => ((secretKey, Some err), db)
      | Ok url =>
          if negb (bool_decide
                     (storj.Address url ∈ allowedSatelliteAddresses db)) then
            ((secretKey,
              Some (errs.New
                ("access grant contains disallowed satellite '" +:+
                 satelliteAddr +:+ "'"))), db)
          else
            let '(secretKey, err) := rand_Read rnd secretKey in
            match err with
            | Some err => ((secretKey, Some err), db)
            | None =>
                let storjKey := ToStorjKey key in
                match Encrypt secretKey storj.EncAESGCM storjKey
                        nonce_secret with
                | Err err => ((secretKey, Some err), db)
                | Ok encryptedSecretKey =>
                    match Encrypt (bytes_of accessGrant) storj.EncAESGCM
                            storjKey nonce_grant with
                    | Err err => ((secretKey, Some err), db)
                    | Ok encryptedAccessGrant =>
                        let record :=
                          {| SatelliteAddress := satelliteAddr;
                             MacaroonHead := access2.APIKey_Head access;
                             EncryptedSecretKey := encryptedSecretKey;
                             EncryptedAccessGrant := encryptedAccessGrant;
                             Public := public |} in
                        let '(err, kv') := kv_Put (kv db) (Hash key) record in
                        match err with
                        | Some err =>
                            ((secretKey, Some (errs.Wrap err)), with_kv db kv')
                        | None => ((secretKey, None), with_kv db kv')
                        end
                    end
                end
            end
      end
  end.

(** [db.Get(ctx, key)]: the results
    [(accessGrant, public, secretKey, err)]. *)
Definition Get (db : Database) (key : EncryptionKey)
  : string * bool * SecretKey * option errs.error :=
  let secretKey := zeros 32 in
  let '(record, err) := kv_Get (kv db) (Hash key) in
  match err with
  | Some err => ("", false, secretKey, Some (errs.Wrap err))
  | None =>
      match record with
      | None =>
          ("", false, secretKey,
           Some (errs.Class_New NotFound
                   ("key hash: " +:+ fmt_x (Hash key))))
      | Some record =>
          let storjKey := ToStorjKey key in
          match Decrypt (EncryptedSecretKey record) storj.EncAESGCM storjKey
                  nonce_secret with
          | Err err => ("", false, secretKey, Some (errs.Wrap err))
          | Ok sk =>
              let secretKey := copy secretKey sk in
              match Decrypt (EncryptedAccessGrant record) storj.EncAESGCM
                      storjKey nonce_grant with
              | Err err => ("", false, secretKey, Some (errs.Wrap err))
              | Ok ag => (string_of ag, Public record, secretKey, None)
              end
          end
      end
  end.

(** [db.Delete(ctx, key)] and [db.Invalidate(ctx, key, reason)] *)
Definition Delete (db : Database) (key : EncryptionKey)
  : option errs.error * Database :=
  let '(err, kv') := kv_Delete (kv db) (Hash key) in
  (errs.Wrap_opt err, with_kv db kv').

Definition Invalidate (db : Database) (key : EncryptionKey) (reason : string)
  : option errs.error * Database :=
  let '(err, kv') := kv_Invalidate (kv db) (Hash key) reason in
  (errs.Wrap_opt err, with_kv db kv').

Definition Ping (db : Database) : option errs.error :=
  errs.Wrap_opt (kv_Ping (kv db)).

End db.
End auth.

(** ** The record store: contract and a reference backend *)

Module store.

(** The state the store keeps for a key hash: the record, and the reason
    when it was invalidated. *)
Record Entry : Type := {
  entry_record : auth.Record;
  entry_invalid : option string
}.

Definition live (r : auth.Record) : Entry :=
  {| entry_record := r; entry_invalid := None |}.

(** [invalidate] keeps the record and marks it; a reason that is already
    there is kept. *)
Definition mark (reason : string) (e : Entry) : Entry :=
  match entry_invalid e with
  | Some _ => e
  | None => {| entry_record := entry_record e; entry_invalid := Some reason |}
  end.

(** Modelled from the spec: the error kind [AlreadyExists] with which the
    store's put fails on a key hash that has a record (spec 4.5, 7). *)
Definition AlreadyExists : errs.Class := errs.MkClass "already exists".

(** Modelled from the spec: the class of the sentinel with which the
    reference backend reports an invalidated record (spec 4.5). *)
Definition Invalid : errs.Class := errs.MkClass "invalid".

End store.

#[global] Instance byte_countable : Countable byte :=
  inj_countable Byte.to_N Byte.of_N Byte.of_to_N.

Module contract.
Import auth store.

(** Modelled from the spec: the contract of the record store (spec 4.5),
    stated against the finite map [kv_view] from key hashes to entries that
    a state stands for.
    - put inserts, and fails with [AlreadyExists], changing nothing, when
      the key hash has a record;
    - get returns nil for an absent key hash, the record for a live one,
      and for an invalidated one an error, without the record;
    - delete succeeds whether or not the record existed;
    - invalidate marks the record and keeps it. *)
Class Contract (S : Type) `{KV S} : Type := {
  kv_view : S -> gmap KeyHash Entry;
  kv_put_ok : forall st h r st',
    kv_Put st h r = (None, st') ->
    kv_view st' = <[h := live r]> (kv_view st);
  kv_put_exists : forall st h r e,
    kv_view st !! h = Some e ->
    exists err st',
      kv_Put st h r = (Some err, st') /\
      errs.Has AlreadyExists err = true /\
      kv_view st' = kv_view st;
  kv_get_absent : forall st h,
    kv_view st !! h = None -> kv_Get st h = (None, None);
  kv_get_live : forall st h r,
    kv_view st !! h = Some (live r) -> kv_Get st h = (Some r, None);
  kv_get_invalid : forall st h r reason,
    kv_view st !! h =
      Some {| entry_record := r; entry_invalid := Some reason |} ->
    exists err, kv_Get st h = (None, Some err);
  kv_delete_ok : forall st h,
    exists st',
      kv_Delete st h = (None, st') /\ kv_view st' = delete h (kv_view st);
  kv_invalidate_ok : forall st h reason,
    exists st',
      kv_Invalidate st h reason = (None, st') /\
      kv_view st' = alter (mark reason) h (kv_view st)
}.

End contract.

(** Modelled from the spec: a backend that keeps the entries in a map in
    memory and follows spec 4.5 to the letter.  Its get reports an
    invalidated record with an error of class [Invalid] that carries the
    reason. *)
Module memkv.
Import auth store.

Definition put (st : gmap KeyHash Entry) (h : KeyHash) (r : Record)
  : option errs.error * gmap KeyHash Entry :=
  match st !! h with
  | Some _ => (Some (errs.Class_New AlreadyExists "record already exists"), st)
  | None => (None, <[h := live r]> st)
  end.

Definition get (st : gmap KeyHash Entry) (h : KeyHash)
  : option Record * option errs.error :=
  match st !! h with
  | None => (None, None)
  | Some e =>
      match entry_invalid e with
      | Some reason => (None, Some (errs.Class_New Invalid reason))
      | None => (Some (entry_record e), None)
      end
  end.

Definition del (st : gmap KeyHash Entry) (h : KeyHash)
  : option errs.error * gmap KeyHash Entry :=
  (None, delete h st).

Definition invalidate (st : gmap KeyHash Entry) (h : KeyHash)
    (reason : string) : option errs.error * gmap KeyHash Entry :=
  (None, alter (mark reason) h st).

#[global] Instance MemKV : KV (gmap KeyHash Entry) := {|
  kv_Put := put;
  kv_Get := get;
  kv_Delete := del;
  kv_Invalidate := invalidate;
  kv_Ping := fun _ => None
|}.

End memkv.

(** ** Small stand-ins for the libraries, to run the database on examples *)

Module sample.

(** A grant of the sample format is its satellite address; the empty
    string does not parse. *)
Definition ParseAccess (g : string) : result access2.Access :=
  match g with
  | EmptyString => Err (errs.plain "access: empty grant")
  | _ => Ok {| access2.SatelliteAddress := g; access2.APIKey_Head := [] |}
  end.

(** The part of [s] after its first [@], when there is one. *)
Fixpoint after_at (s : string) : option string :=
  match s with
  | EmptyString => None
  | String c rest =>
      if Ascii.eqb c "@"%char then Some rest else after_at rest
  end.

Fixpoint before_at (s : string) : string :=
  match s with
  | EmptyString => EmptyString
  | String c rest =>
      if Ascii.eqb c "@"%char then EmptyString else String c (before_at rest)
  end.

(** [id@host:port] or [host:port]; a string with a space does not parse. *)
Definition ParseNodeURL (s : string) : result storj.NodeURL :=
  if existsb (fun c => byte_eqb c x20) (bytes_of s) then
    Err (errs.plain "node URL: invalid character")
  else
    match after_at s with
    | Some addr =>
        Ok {| storj.ID := bytes_of (before_at s); storj.Address := addr |}
    | None => Ok {| storj.ID := []; storj.Address := s |}
    end.

Definition ErrDecryptFailed : errs.Class :=
  errs.MkClass "decryption failed, check encryption key".

(** A sealed box that shows its key and nonce: opening checks them. *)
Definition Encrypt (data : list byte) (c : storj.CipherSuite)
    (key nonce : list byte) : result (list byte) :=
  Ok (key ++ storj.ToAESGCMNonce nonce ++ data).

Definition Decrypt (box : list byte) (c : storj.CipherSuite)
    (key nonce : list byte) : result (list byte) :=
  let tag := key ++ storj.ToAESGCMNonce nonce in
  if bool_decide (firstn (List.length tag) box = tag) then
    Ok (skipn (List.length tag) box)
  else
    Err (errs.Class_New ErrDecryptFailed
           "cipher: message authentication failed").

(** A stand-in for SHA-256 that is injective on keys. *)
Definition Sum256 (k : list byte) : list byte := k ++ zeros 16.

Definition unicode (s : string) : string := s.

Definition LF : string := String (ascii_of_nat 10) EmptyString.

Fixpoint rep (n : nat) (s : string) : string :=
  match n with
  | O => EmptyString
  | Datatypes.S n' => s +:+ rep n' s
  end.

Definition key1 : auth.EncryptionKey :=
  [x01; x02; x03; x04; x05; x06; x07; x08;
   x09; x0a; x0b; x0c; x0d; x0e; x0f; x10].

Definition rnd1 : entropy :=
  {| rand_bytes := repeat x5a 32; rand_err := errs.plain "rand: no entropy" |}.

Definition db0 (allowed : list string) : auth.Database :=
  auth.NewDatabase (∅ : gmap auth.KeyHash store.Entry) allowed.

End sample.

(** ** Notions used to state the properties *)

Module notions.
Import auth.

(** The low 5 bits of a byte: the block of 5 bits a character stands for. *)
Definition mask (v : byte) : byte := band v x1f.

(** The characters that [base32Encoding] writes. *)
Definition in_alphabet (c : byte) : Prop :=
  exists v, c = base32.encode_at base32Encoding v.

(** The canonical encoded keys: 28 characters of the lower-case alphabet, the
    last of which has no bit set beyond the one that fills the 17th byte. *)
Definition lower_alphabet : string := "abcdefghijklmnopqrstuvwxyz234567".

Definition is_key_char (c : byte) : bool :=
  existsb (byte_eqb c) (bytes_of lower_alphabet).

Definition canonical (x : string) : bool :=
  (String.length x =? 28)%nat &&
  forallb is_key_char (bytes_of x) &&
  (let c := nth 27 (bytes_of x) x00 in byte_eqb c x61 || byte_eqb c x71).

(** The error of [Put] for a satellite that is not allowed. *)
Definition disallowed (satelliteAddr : string) : errs.error :=
  errs.New ("access grant contains disallowed satellite '" +:+
            satelliteAddr +:+ "'").

(** The record that [Put] hands to the store. *)
Definition record_of (access : access2.Access) (esk eag : list byte)
    (public : bool) : Record :=
  {| SatelliteAddress := access2.SatelliteAddress access;
     MacaroonHead := access2.APIKey_Head access;
     EncryptedSecretKey := esk;
     EncryptedAccessGrant := eag;
     Public := public |}.

End notions.

(** ** A scenario on the sample libraries and the reference backend *)

Module scenario.
Import auth store.

#[local] Abbreviation DB := (@Database (gmap KeyHash Entry)).

Definition configured : list string :=
  ["12AbC@sat1.example:7777"; "sat2.example:7777"].

Definition db0 : DB := sample.db0 ["sat1.example:7777"; "sat2.example:7777"].

Definition grant1 : string := "9xyz@sat1.example:7777".
Definition grant2 : string := "sat2.example:7777".
Definition grant3 : string := "9xyz@sat3.example:7777".

Definition secret1 : SecretKey := repeat x5a 32.

(** After [Put(key1, grant1, false)]. *)
Definition db1 : DB := snd (auth.Put sample.Sum256 sample.ParseAccess sample.ParseNodeURL
         sample.Encrypt db0 sample.key1 grant1 false sample.rnd1).

(** After [Invalidate(key1, "abuse")]. *)
Definition db2 : DB :=
  snd (auth.Invalidate sample.Sum256 db1 sample.key1 "abuse").

Definition record1 : Record :=
  {| SatelliteAddress := grant1;
     MacaroonHead := [];
     EncryptedSecretKey :=
       ToStorjKey sample.key1 ++ storj.ToAESGCMNonce nonce_secret ++ secret1;
     EncryptedAccessGrant :=
       ToStorjKey sample.key1 ++ storj.ToAESGCMNonce nonce_grant ++
       bytes_of grant1;
     Public := false |}.

(** A store whose record for [key1] does not open. *)
Definition db_bad : DB :=
  {| kv := {[ auth.Hash sample.Sum256 sample.key1 :=
                live {| SatelliteAddress := grant1;
                        MacaroonHead := [];
                        EncryptedSecretKey := [x00];
                        EncryptedAccessGrant := [x00];
                        Public := false |} ]};
     allowedSatelliteAddresses := ∅ |}.

End scenario.

(** ** cmd/gateway/main.go: reading a boolean flag before the flags are parsed *)

Module gateway.

(** [strings.HasPrefix(s, prefix)] *)
Definition HasPrefix (s prefix : string) : bool := String.prefix prefix s.

(** The loop of [findBoolFlagEarly] over [os.Args], from the argument at hand
    on.  [arg] is looked at with its successor [os.Args[i+1]], when it has
    one; [fmt.Sprintf("--%s", flagName)] is ["--"] followed by the name. *)
Fixpoint findBoolFlagEarly_from (flagName : string) (args : list string)
  : bool :=
  match args with
  | [] => false
  | arg :: rest =>
      let argHasPrefix pre := HasPrefix arg pre in
      if negb (argHasPrefix ("--" +:+ flagName)) then
        findBoolFlagEarly_from flagName rest
      else
        let next_is_false :=
          match rest with
          | next :: _ => String.eqb next "false"
          | [] => false
          end in
        if next_is_false then false
        else if negb (argHasPrefix ("--" +:+ flagName +:+ "=false")) then true
        else findBoolFlagEarly_from flagName rest
  end.

(** [findBoolFlagEarly(flagName)], with [os.Args] as an argument. *)
Definition findBoolFlagEarly (os_Args : list string) (flagName : string)
  : bool :=
  findBoolFlagEarly_from flagName os_Args.

End gateway.

(** ** More notions to state properties of the codec *)

Module codec_notions.

(** A character of the base32 alphabet in either case. *)
Definition is_base32_char (c : byte) : bool :=
  existsb (byte_eqb c) (bytes_of notions.lower_alphabet) ||
  existsb (byte_eqb c) (bytes_of base32.encodeStd).

(** 28 characters of the alphabet, in either case. *)
Definition wellformed (x : string) : bool :=
  (String.length x =? 28)%nat && forallb is_base32_char (bytes_of x).

(** The error of [FromBase32] for a wrong version byte and for a wrong
    length. *)
Definition wrong_version : errs.error :=
  errs.New "encryption key did not start with expected byte".

Definition wrong_length (n : nat) : errs.error :=
  errs.New ("alphanumeric encryption key length expected to be " +:+
            fmt_d auth.encKeySizeEncoded +:+ ", was " +:+ fmt_d n).

End codec_notions.

(** * Properties *)

(** ** The codec on known strings *)

(** The test vectors of RFC 4648, with and without padding. *)
Example base32_rfc4648 :
  let std := base32.StdEncoding in
  let raw := base32.WithPadding base32.StdEncoding base32.NoPadding in
  map (base32.EncodeToString std)
    [bytes_of ""; bytes_of "f"; bytes_of "fo"; bytes_of "foo";
     bytes_of "foob"; bytes_of "fooba"; bytes_of "foobar"]
  = [""; "MY======"; "MZXQ===="; "MZXW6==="; "MZXW6YQ="; "MZXW6YTB";
     "MZXW6YTBOI======"] /\
  map (base32.EncodeToString raw)
    [bytes_of "f"; bytes_of "fo"; bytes_of "foo"; bytes_of "foob";
     bytes_of "foobar"]
  = ["MY"; "MZXQ"; "MZXW6"; "MZXW6YQ"; "MZXW6YTBOI"] /\
  map (base32.DecodeString std)
    ["MY======"; "MZXQ===="; "MZXW6==="; "MZXW6YQ="; "MZXW6YTBOI======"]
  = [(bytes_of "f", None); (bytes_of "fo", None); (bytes_of "foo", None);
     (bytes_of "foob", None); (bytes_of "foobar", None)] /\
  map (base32.DecodeString raw) ["MY"; "MZXQ"; "MZXW6YTBOI"]
  = [(bytes_of "f", None); (bytes_of "fo", None); (bytes_of "foobar", None)].
Proof. vm_compute. repeat split. Qed.

(** An encoded key in upper case decodes to the same key as in lower case,
    and the key encodes to lower case. *)
Example FromBase32_upper_case :
  auth.FromBase32 sample.unicode (repeat xff 16) "JUAAAAAAAAAAAAAAAAAAAAAAAAAA"
  = (zeros 16, auth.Return None) /\
  auth.FromBase32 sample.unicode (repeat xff 16) "juaaaaaaaaaaaaaaaaaaaaaaaaaa"
  = (zeros 16, auth.Return None) /\
  auth.ToBase32 sample.unicode (zeros 16) = "juaaaaaaaaaaaaaaaaaaaaaaaaaa".
Proof. vm_compute. repeat split. Qed.

(** ** Bytes and their bits *)

Lemma b2z_range b : 0 <= b2z b < 256.
Proof. unfold b2z. pose proof (Byte.to_N_bounded b). lia. Qed.

Lemma z2b_b2z b : z2b (b2z b) = b.
Proof.
  unfold z2b. rewrite Z.mod_small by apply b2z_range.
  unfold b2z. rewrite N2Z.id, Byte.of_to_N. reflexivity.
Qed.

Lemma b2z_z2b z : b2z (z2b z) = z mod 256.
Proof.
  unfold z2b, b2z.
  assert (Hr : 0 <= z mod 256 < 256) by (apply Z.mod_pos_bound; lia).
  destruct (Byte.of_N (Z.to_N (z mod 256))) eqn:E.
  - apply Byte.to_of_N in E. rewrite E. lia.
  - apply Byte.of_N_None_iff in E. lia.
Qed.

Lemma b2z_inj a b : b2z a = b2z b -> a = b.
Proof. intros E. rewrite <- (z2b_b2z a), <- (z2b_b2z b), E. reflexivity. Qed.

Lemma testbit_shl a n m :
  Z.testbit (Z.shiftl a n) m = negb (m <? 0) && Z.testbit a (m - n).
Proof.
  destruct (Z.ltb_spec m 0); cbn [andb negb].
  - apply Z.testbit_neg_r; lia.
  - apply Z.shiftl_spec; lia.
Qed.

Lemma testbit_shr a n m :
  Z.testbit (Z.shiftr a n) m = negb (m <? 0) && Z.testbit a (m + n).
Proof.
  destruct (Z.ltb_spec m 0); cbn [andb negb].
  - apply Z.testbit_neg_r; lia.
  - apply Z.shiftr_spec; lia.
Qed.

Lemma testbit_u8 a m : Z.testbit (a mod 256) m = (m <? 8) && Z.testbit a m.
Proof.
  change 256 with (2 ^ 8).
  destruct (Z.ltb_spec m 8); cbn [andb negb].
  - apply Z.mod_pow2_bits_low; lia.
  - apply Z.mod_pow2_bits_high; lia.
Qed.

Lemma testbit_b2z_high b m : 8 <= m -> Z.testbit (b2z b) m = false.
Proof.
  intros Hm. pose proof (b2z_range b).
  rewrite <- (Z.mod_small (b2z b) 256) by lia. rewrite testbit_u8.
  destruct (Z.ltb_spec m 8); [lia | reflexivity].
Qed.

(** Two bytes with the same eight bits are equal. *)
Lemma byte_eq_bits (a b : byte) :
  (forall i, In i [0; 1; 2; 3; 4; 5; 6; 7] ->
             Z.testbit (b2z a) i = Z.testbit (b2z b) i) ->
  a = b.
Proof.
  intros Hbits. apply b2z_inj. apply Z.bits_inj'. intros n Hn.
  destruct (Z.ltb_spec n 8).
  - apply Hbits.
    assert (n = 0 \/ n = 1 \/ n = 2 \/ n = 3 \/ n = 4 \/ n = 5 \/ n = 6 \/ n = 7)
      by lia.
    simpl. intuition.
  - rewrite !testbit_b2z_high by lia. reflexivity.
Qed.

(** [byte_blast] proves an equation between bytes built from [shl], [shr],
    [band], [bor], byte constants and variables, bit by bit. *)
Ltac eval_const_bits :=
  repeat match goal with
  | |- context [Z.testbit (Zpos ?p) ?i] =>
      let v := eval vm_compute in (Z.testbit (Zpos p) i) in
      change (Z.testbit (Zpos p) i) with v
  | |- context [Z.testbit 0 ?i] => rewrite (Z.testbit_0_l i)
  | |- context [b2z ?c] =>
      is_constructor c;
      let v := eval vm_compute in (b2z c) in change (b2z c) with v
  end.

Ltac kill_atoms :=
  repeat match goal with
  | |- context [Z.testbit (b2z ?x) ?i] =>
      let b := fresh "b" in
      generalize (Z.testbit (b2z x) i); intros b; destruct b
  end.

Ltac eval_indices :=
  repeat match goal with
  | |- context [Z.testbit _ ?i] =>
      lazymatch i with
      | Z0 => fail
      | Zpos _ => fail
      | Zneg _ => fail
      | _ => let v := eval vm_compute in i in change i with v
      end
  | |- context [?x <? ?y] =>
      let v := eval vm_compute in (x <? y) in change (x <? y) with v
  end;
  cbn [andb orb negb].

Ltac byte_blast :=
  apply byte_eq_bits;
  let i := fresh "i" in
  let Hi := fresh "Hi" in
  intros i Hi; simpl in Hi;
  repeat (destruct Hi as [Hi | Hi]; [subst i | ]); [ .. | contradiction ];
  unfold shl, shr, band, bor;
  repeat (rewrite ?b2z_z2b, ?testbit_u8, ?Z.lor_spec, ?Z.land_spec,
            ?testbit_shl, ?testbit_shr);
  eval_indices;
  eval_const_bits;
  cbn [andb orb negb];
  repeat match goal with
  | |- context [Z.testbit (b2z ?x) (Zneg ?p)] =>
      rewrite (Z.testbit_neg_r (b2z x) (Zneg p)) by lia
  | |- context [Z.testbit (b2z ?x) (Zpos ?p)] =>
      rewrite (testbit_b2z_high x (Zpos p)) by lia
  end;
  cbn [andb orb negb];
  kill_atoms; reflexivity.

Lemma cons_eq {A} (a b : A) (l l' : list A) :
  a = b -> l = l' -> a :: l = b :: l'.
Proof. intros -> ->. reflexivity. Qed.

(** A list equation between lists of bytes of the same length. *)
Ltac bytes_blast :=
  repeat (apply cons_eq; [byte_blast | ]); reflexivity.

Lemma copy_full {A} (dst src : list A) :
  List.length src = List.length dst -> copy dst src = src.
Proof.
  intros E. unfold copy. rewrite E, Nat.min_id.
  rewrite <- E at 1. rewrite firstn_all.
  rewrite skipn_all. apply app_nil_r.
Qed.

Lemma copy_length {A} (dst src : list A) :
  List.length (copy dst src) = List.length dst.
Proof.
  unfold copy. rewrite length_app, length_firstn, length_skipn. lia.
Qed.

Lemma bytes_of_string_of bs : bytes_of (string_of bs) = bs.
Proof. apply list_byte_of_string_of_list_byte. Qed.

Lemma string_of_bytes_of s : string_of (bytes_of s) = s.
Proof. apply string_of_list_byte_of_string. Qed.

Lemma string_of_length bs : String.length (string_of bs) = List.length bs.
Proof.
  induction bs as [|b bs IH]; [reflexivity|].
  cbn. f_equal. exact IH.
Qed.

(** ** The base32 quantum: packing undoes unpacking, and back *)

Module base32_facts.
Import base32 notions.

Lemma list_ind5 {A} (P : list A -> Prop) :
  P [] ->
  (forall a, P [a]) ->
  (forall a b, P [a; b]) ->
  (forall a b c, P [a; b; c]) ->
  (forall a b c d, P [a; b; c; d]) ->
  (forall a b c d e l, P l -> P (a :: b :: c :: d :: e :: l)) ->
  forall l, P l.
Proof.
  intros H0 H1 H2 H3 H4 H5.
  fix IH 1.
  intros [|a [|b [|c [|d [|e l]]]]].
  - exact H0.
  - apply H1.
  - apply H2.
  - apply H3.
  - apply H4.
  - apply H5. apply IH.
Qed.

Lemma unpack_5 a b c d e l :
  unpack (a :: b :: c :: d :: e :: l) = unpack [a; b; c; d; e].
Proof. reflexivity. Qed.

Lemma pack_unpack_5 a b c d e :
  pack (map mask (unpack [a; b; c; d; e])) 8 = [a; b; c; d; e].
Proof.
  unfold pack, unpack, mask. cbn [List.length Nat.leb Nat.eqb orb map nth].
  bytes_blast.
Qed.

Lemma pack_unpack_4 a b c d :
  pack (firstn 7 (map mask (unpack [a; b; c; d]))) 7 = [a; b; c; d].
Proof.
  unfold pack, unpack, mask.
  cbn [List.length Nat.leb Nat.eqb orb map nth firstn].
  bytes_blast.
Qed.

Lemma pack_unpack_3 a b c :
  pack (firstn 5 (map mask (unpack [a; b; c]))) 5 = [a; b; c].
Proof.
  unfold pack, unpack, mask.
  cbn [List.length Nat.leb Nat.eqb orb map nth firstn].
  bytes_blast.
Qed.

Lemma pack_unpack_2 a b :
  pack (firstn 4 (map mask (unpack [a; b]))) 4 = [a; b].
Proof.
  unfold pack, unpack, mask.
  cbn [List.length Nat.leb Nat.eqb orb map nth firstn].
  bytes_blast.
Qed.

Lemma pack_unpack_1 a :
  pack (firstn 2 (map mask (unpack [a]))) 2 = [a].
Proof.
  unfold pack, unpack, mask.
  cbn [List.length Nat.leb Nat.eqb orb map nth firstn].
  bytes_blast.
Qed.

#[local] Abbreviation enc := auth.base32Encoding.

(** The alphabet of [base32Encoding]: each of its characters decodes to the
    block it encodes, is none of padding, carriage return and line feed, is
    ASCII, and comes back from lower case. *)
Lemma alphabet (v : byte) :
  decode_at enc (encode_at enc v) = mask v /\
  byte_eqb (encode_at enc v) (padByte enc) = false /\
  byte_eqb (mask v) xff = false /\
  negb (byte_eqb (encode_at enc v) x0d || byte_eqb (encode_at enc v) x0a)
    = true /\
  (b2z (encode_at enc v) <? gostrings.RuneSelf) = true /\
  (b2z (gostrings.lower_byte (encode_at enc v)) <? gostrings.RuneSelf) = true /\
  gostrings.upper_byte (gostrings.lower_byte (encode_at enc v))
    = encode_at enc v.
Proof. destruct v; vm_compute; repeat split. Qed.

Lemma unpack_shape src :
  exists u0 u1 u2 u3 u4 u5 u6 u7,
    unpack src = [u0; u1; u2; u3; u4; u5; u6; u7].
Proof. unfold unpack. repeat eexists. Qed.

Lemma decode_char olen j dbuf v src' :
  (j < 7)%nat ->
  decode enc olen j dbuf (encode_at enc v :: src')
  = decode enc olen (S j) (dbuf ++ [mask v]) src'.
Proof.
  intros Hj. cbn [decode].
  destruct (alphabet v) as (Hd & Hp & Hm & _).
  rewrite Hp. cbn [andb]. rewrite Hd, Hm.
  do 7 (destruct j as [|j]; [reflexivity|]). lia.
Qed.

Lemma decode_char_last olen dbuf v src' :
  decode enc olen 7 dbuf (encode_at enc v :: src')
  = let '(d, e) := decode enc olen 0 [] src' in
    (pack (dbuf ++ [mask v]) 8 ++ d, e).
Proof.
  cbn [decode].
  destruct (alphabet v) as (Hd & Hp & Hm & _).
  rewrite Hp. cbn [andb]. rewrite Hd, Hm. reflexivity.
Qed.

Lemma decode_end olen j dbuf :
  (0 < j)%nat -> decode enc olen j dbuf [] = (pack dbuf j, None).
Proof. intros Hj. destruct j; [lia | reflexivity]. Qed.

Lemma decode_quantum olen v0 v1 v2 v3 v4 v5 v6 v7 rest :
  decode enc olen 0 []
    (map (encode_at enc) [v0; v1; v2; v3; v4; v5; v6; v7] ++ rest)
  = let '(d, e) := decode enc olen 0 [] rest in
    (pack (map mask [v0; v1; v2; v3; v4; v5; v6; v7]) 8 ++ d, e).
Proof.
  cbn [map app].
  rewrite !decode_char by lia. rewrite decode_char_last. reflexivity.
Qed.

Lemma EncodedLen_5 n :
  EncodedLen enc (5 + n) = (8 + EncodedLen enc n)%nat.
Proof.
  unfold EncodedLen. change (padChar enc =? NoPadding) with true. cbv iota.
  replace ((5 + n) * 8 + 4)%nat with (8 * 5 + (n * 8 + 4))%nat by lia.
  rewrite Nat.div_add_l by lia. lia.
Qed.

Lemma Encode_5 m a b c d e l :
  Encode enc (8 + m) (a :: b :: c :: d :: e :: l)
  = map (encode_at enc) (unpack [a; b; c; d; e]) ++ Encode enc m l.
Proof.
  cbn [Encode]. rewrite unpack_5.
  replace (Nat.min 8 (8 + m)) with 8%nat by lia.
  replace (8 + m - 8)%nat with m by lia.
  destruct (unpack_shape [a; b; c; d; e])
    as (u0 & u1 & u2 & u3 & u4 & u5 & u6 & u7 & E).
  rewrite E. reflexivity.
Qed.

(** Decoding what [Encode] wrote gives the source back, whatever its
    length. *)
Lemma decode_Encode src :
  forall olen,
    decode enc olen 0 [] (Encode enc (EncodedLen enc (List.length src)) src)
    = (src, None).
Proof.
  induction src as [|a|a b|a b c|a b c d|a b c d e l IH] using list_ind5;
    intros olen.
  - reflexivity.
  - change (EncodedLen enc (List.length [a])) with 2%nat.
    pose proof (pack_unpack_1 a) as Hq.
    destruct (unpack_shape [a]) as (u0 & u1 & u2 & u3 & u4 & u5 & u6 & u7 & E).
    cbn [Encode]. rewrite E in *.
    change (padChar enc =? NoPadding) with true. cbv iota.
    cbn [Nat.min firstn map] in *.
    rewrite !decode_char by lia. rewrite decode_end by lia.
    cbn [app]. rewrite Hq. reflexivity.
  - change (EncodedLen enc (List.length [a; b])) with 4%nat.
    pose proof (pack_unpack_2 a b) as Hq.
    destruct (unpack_shape [a; b])
      as (u0 & u1 & u2 & u3 & u4 & u5 & u6 & u7 & E).
    cbn [Encode]. rewrite E in *.
    change (padChar enc =? NoPadding) with true. cbv iota.
    cbn [Nat.min firstn map] in *.
    rewrite !decode_char by lia. rewrite decode_end by lia.
    cbn [app]. rewrite Hq. reflexivity.
  - change (EncodedLen enc (List.length [a; b; c])) with 5%nat.
    pose proof (pack_unpack_3 a b c) as Hq.
    destruct (unpack_shape [a; b; c])
      as (u0 & u1 & u2 & u3 & u4 & u5 & u6 & u7 & E).
    cbn [Encode]. rewrite E in *.
    change (padChar enc =? NoPadding) with true. cbv iota.
    cbn [Nat.min firstn map] in *.
    rewrite !decode_char by lia. rewrite decode_end by lia.
    cbn [app]. rewrite Hq. reflexivity.
  - change (EncodedLen enc (List.length [a; b; c; d])) with 7%nat.
    pose proof (pack_unpack_4 a b c d) as Hq.
    destruct (unpack_shape [a; b; c; d])
      as (u0 & u1 & u2 & u3 & u4 & u5 & u6 & u7 & E).
    cbn [Encode]. rewrite E in *.
    change (padChar enc =? NoPadding) with true. cbv iota.
    cbn [Nat.min firstn map] in *.
    rewrite !decode_char by lia. rewrite decode_end by lia.
    cbn [app]. rewrite Hq. reflexivity.
  - change (List.length (a :: b :: c :: d :: e :: l))
      with (5 + List.length l)%nat.
    rewrite EncodedLen_5, Encode_5.
    pose proof (pack_unpack_5 a b c d e) as Hq.
    destruct (unpack_shape [a; b; c; d; e])
      as (u0 & u1 & u2 & u3 & u4 & u5 & u6 & u7 & E).
    rewrite E in *. rewrite decode_quantum, IH, Hq. reflexivity.
Qed.

Lemma Encode_alphabet src :
  forall size, Forall in_alphabet (Encode enc size src).
Proof.
  assert (Hq : forall size s,
             Forall in_alphabet
               (firstn (Nat.min 8 size) (map (encode_at enc) (unpack s)))).
  { intros size s. apply Forall_take.
    induction (unpack s) as [|v vs IHv]; constructor; [|exact IHv].
    exists v. reflexivity. }
  induction src as [|a|a b|a b c|a b c d|a b c d e l IH] using list_ind5;
    intros size.
  - constructor.
  - apply (Hq size [a]).
  - apply (Hq size [a; b]).
  - apply (Hq size [a; b; c]).
  - apply (Hq size [a; b; c; d]).
  - cbn [Encode]. apply Forall_app. split; [apply Hq | apply IH].
Qed.

Lemma Encode_length src :
  List.length (Encode enc (EncodedLen enc (List.length src)) src)
  = EncodedLen enc (List.length src).
Proof.
  induction src as [|a|a b|a b c|a b c d|a b c d e l IH] using list_ind5;
    try reflexivity.
  change (List.length (a :: b :: c :: d :: e :: l))
    with (5 + List.length l)%nat.
  rewrite EncodedLen_5, Encode_5.
  destruct (unpack_shape [a; b; c; d; e])
    as (u0 & u1 & u2 & u3 & u4 & u5 & u6 & u7 & E).
  rewrite E, length_app, IH. reflexivity.
Qed.

Lemma stripNewlines_alphabet cs :
  Forall in_alphabet cs -> stripNewlines cs = cs.
Proof.
  unfold stripNewlines.
  induction 1 as [|c cs [v ->] _ IH]; [reflexivity|].
  cbn [List.filter]. destruct (alphabet v) as (_ & _ & _ & Hn & _).
  rewrite Hn, IH. reflexivity.
Qed.

Lemma isASCII_alphabet cs :
  Forall in_alphabet cs -> gostrings.isASCII cs = true.
Proof.
  unfold gostrings.isASCII.
  induction 1 as [|c cs [v ->] _ IH]; [reflexivity|].
  cbn [forallb]. destruct (alphabet v) as (_ & _ & _ & _ & Ha & _).
  rewrite Ha, IH. reflexivity.
Qed.

Lemma isASCII_lower_alphabet cs :
  Forall in_alphabet cs ->
  gostrings.isASCII (map gostrings.lower_byte cs) = true.
Proof.
  unfold gostrings.isASCII.
  induction 1 as [|c cs [v ->] _ IH]; [reflexivity|].
  cbn [map forallb]. destruct (alphabet v) as (_ & _ & _ & _ & _ & Ha & _).
  rewrite Ha, IH. reflexivity.
Qed.

Lemma upper_lower_alphabet cs :
  Forall in_alphabet cs ->
  map gostrings.upper_byte (map gostrings.lower_byte cs) = cs.
Proof.
  induction 1 as [|c cs [v ->] _ IH]; [reflexivity|].
  cbn [map]. destruct (alphabet v) as (_ & _ & _ & _ & _ & _ & Hu).
  rewrite Hu, IH. reflexivity.
Qed.

(** On a string of ASCII bytes [ToLower] and [ToUpper] map each byte. *)
Lemma ToLower_ascii f bs :
  gostrings.isASCII bs = true ->
  gostrings.ToLower f (string_of bs)
  = string_of (map gostrings.lower_byte bs).
Proof.
  intros Ha. unfold gostrings.ToLower.
  rewrite bytes_of_string_of, Ha.
  destruct (existsb gostrings.is_upper bs) eqn:E; [reflexivity|].
  cbn [negb]. f_equal.
  clear Ha. induction bs as [|b bs IH]; [reflexivity|].
  cbn [existsb] in E. apply orb_false_iff in E as [Eb Ebs].
  cbn [map]. unfold gostrings.lower_byte at 1. rewrite Eb.
  f_equal. apply IH, Ebs.
Qed.

Lemma ToUpper_ascii f bs :
  gostrings.isASCII bs = true ->
  gostrings.ToUpper f (string_of bs)
  = string_of (map gostrings.upper_byte bs).
Proof.
  intros Ha. unfold gostrings.ToUpper.
  rewrite bytes_of_string_of, Ha.
  destruct (existsb gostrings.is_lower bs) eqn:E; [reflexivity|].
  cbn [negb]. f_equal.
  clear Ha. induction bs as [|b bs IH]; [reflexivity|].
  cbn [existsb] in E. apply orb_false_iff in E as [Eb Ebs].
  cbn [map]. unfold gostrings.upper_byte at 1. rewrite Eb.
  f_equal. apply IH, Ebs.
Qed.

(** The other way round: unpacking what was packed from 8 blocks of 5 bits
    gives the blocks back; for a last group of 4 blocks, when the 4 low
    bits of the last block, which fill no byte, are zero. *)
Lemma unpack_pack_8 v0 v1 v2 v3 v4 v5 v6 v7 l :
  map mask (unpack (pack (map mask [v0; v1; v2; v3; v4; v5; v6; v7]) 8 ++ l))
  = map mask [v0; v1; v2; v3; v4; v5; v6; v7].
Proof.
  cbn [pack map nth app]. rewrite unpack_5.
  unfold unpack, mask. cbn [List.length Nat.leb Nat.eqb orb map nth].
  bytes_blast.
Qed.

Lemma unpack_pack_4 v0 v1 v2 v3 :
  firstn 4 (map mask
              (unpack (pack [mask v0; mask v1; mask v2; band v3 x10] 4)))
  = [mask v0; mask v1; mask v2; band v3 x10].
Proof.
  unfold unpack, pack, mask.
  cbn [List.length Nat.leb Nat.eqb orb map nth firstn].
  bytes_blast.
Qed.

Lemma encode_at_mask v : encode_at enc (mask v) = encode_at enc v.
Proof. destruct v; reflexivity. Qed.

End base32_facts.

(** ** The codec of encryption keys *)

Module codec.
Import base32 notions base32_facts.

#[local] Abbreviation enc := auth.base32Encoding.

Lemma bytes_of_length s : List.length (bytes_of s) = String.length s.
Proof. rewrite <- (string_of_bytes_of s) at 2. symmetry. apply string_of_length. Qed.

Lemma byte_eqb_eq a b : byte_eqb a b = true -> a = b.
Proof. apply Byte.byte_dec_bl. Qed.

Lemma map_encode_mask us :
  map (encode_at enc) us = map (encode_at enc) (map mask us).
Proof.
  induction us as [|u us IH]; [reflexivity|].
  cbn [map]. rewrite encode_at_mask, IH. reflexivity.
Qed.

Lemma pack_shape_8 l : exists p0 p1 p2 p3 p4, pack l 8 = [p0; p1; p2; p3; p4].
Proof. unfold pack. repeat eexists. Qed.

Lemma pack_shape_4 l : exists p0 p1, pack l 4 = [p0; p1].
Proof. unfold pack. repeat eexists. Qed.

Lemma ToBase32_chars low ver k :
  auth.ToBase32_with low ver k
  = string_of (map gostrings.lower_byte
                 (Encode enc (EncodedLen enc (Datatypes.S (List.length k)))
                    (ver :: k))).
Proof.
  unfold auth.ToBase32_with, EncodeToString. cbn [app List.length].
  apply ToLower_ascii. apply isASCII_alphabet, Encode_alphabet.
Qed.

(** Decoding the encoding of a key gives the key. *)
Lemma FromBase32_ToBase32 up low (k0 b : auth.EncryptionKey) :
  List.length b = 16%nat -> List.length k0 = 16%nat ->
  auth.FromBase32 up k0 (auth.ToBase32 low b) = (b, auth.Return None).
Proof.
  intros Hb Hk. unfold auth.FromBase32, auth.ToBase32.
  rewrite ToBase32_chars.
  set (cs := Encode enc (EncodedLen enc (Datatypes.S (List.length b)))
               (auth.encKeyVersionByte :: b)).
  assert (Hcs : Forall in_alphabet cs) by apply Encode_alphabet.
  assert (Hlen : List.length cs = 28%nat).
  { subst cs.
    change (Datatypes.S (List.length b))
      with (List.length (auth.encKeyVersionByte :: b)).
    rewrite Encode_length. cbn [List.length]. rewrite Hb. reflexivity. }
  rewrite string_of_length, length_map, Hlen.
  change (negb (28 =? auth.encKeySizeEncoded)%nat) with false. cbv iota.
  rewrite ToUpper_ascii by (apply isASCII_lower_alphabet, Hcs).
  rewrite upper_lower_alphabet by exact Hcs.
  unfold DecodeString. rewrite bytes_of_string_of.
  rewrite stripNewlines_alphabet by exact Hcs.
  subst cs.
  change (Datatypes.S (List.length b))
    with (List.length (auth.encKeyVersionByte :: b)).
  rewrite decode_Encode.
  change (negb (byte_eqb auth.encKeyVersionByte auth.encKeyVersionByte))
    with false. cbv iota.
  rewrite copy_full by congruence. reflexivity.
Qed.

(** A failing or panicking [FromBase32] leaves the receiver as it was. *)
Lemma FromBase32_receiver up (k k' : auth.EncryptionKey) encoded out :
  auth.FromBase32 up k encoded = (k', out) ->
  out <> auth.Return None -> k' = k.
Proof.
  unfold auth.FromBase32. intros E Hout.
  destruct (negb (String.length encoded =? auth.encKeySizeEncoded)%nat).
  { injection E as <- _. reflexivity. }
  destruct (DecodeString enc (gostrings.ToUpper up encoded)) as [data [err|]].
  { injection E as <- _. reflexivity. }
  destruct data as [|d0 data1].
  { injection E as <- _. reflexivity. }
  destruct (negb (byte_eqb d0 auth.encKeyVersionByte)).
  { injection E as <- _. reflexivity. }
  injection E as _ <-. contradiction Hout. reflexivity.
Qed.

Lemma key_char_inv c :
  is_key_char c = true ->
  exists v, c = gostrings.lower_byte (encode_at enc v).
Proof.
  intros Hc. exists (decode_at enc (gostrings.upper_byte c)).
  destruct c; vm_compute in Hc; try discriminate Hc; reflexivity.
Qed.

Lemma key_chars_inv bs :
  forallb is_key_char bs = true ->
  exists vs, bs = map gostrings.lower_byte (map (encode_at enc) vs).
Proof.
  induction bs as [|c bs IH]; intros Hbs.
  - exists []. reflexivity.
  - cbn [forallb] in Hbs. apply andb_true_iff in Hbs as [Hc Hbs].
    destruct (key_char_inv c Hc) as [v ->].
    destruct (IH Hbs) as [vs ->].
    exists (v :: vs). reflexivity.
Qed.

Lemma last_char_inv v :
  (let c := gostrings.lower_byte (encode_at enc v) in
   byte_eqb c x61 || byte_eqb c x71) = true ->
  exists w, mask v = band w x10.
Proof.
  intros Hv. exists (mask v).
  destruct v; vm_compute in Hv; try discriminate Hv; reflexivity.
Qed.

Lemma Encode_pack_8 m v0 v1 v2 v3 v4 v5 v6 v7 l :
  Encode enc (8 + m) (pack (map mask [v0; v1; v2; v3; v4; v5; v6; v7]) 8 ++ l)
  = map (encode_at enc) [v0; v1; v2; v3; v4; v5; v6; v7] ++ Encode enc m l.
Proof.
  pose proof (unpack_pack_8 v0 v1 v2 v3 v4 v5 v6 v7 l) as Hu.
  destruct (pack_shape_8 (map mask [v0; v1; v2; v3; v4; v5; v6; v7]))
    as (p0 & p1 & p2 & p3 & p4 & Ep).
  rewrite Ep in *. cbn [app] in *. rewrite Encode_5.
  rewrite unpack_5 in Hu.
  rewrite (map_encode_mask (unpack _)), Hu, <- map_encode_mask.
  reflexivity.
Qed.

Lemma Encode_pack_4 v0 v1 v2 w :
  Encode enc 4 (pack [mask v0; mask v1; mask v2; band w x10] 4)
  = map (encode_at enc) [mask v0; mask v1; mask v2; band w x10].
Proof.
  pose proof (unpack_pack_4 v0 v1 v2 w) as Hu.
  destruct (pack_shape_4 [mask v0; mask v1; mask v2; band w x10])
    as (p0 & p1 & Ep).
  rewrite Ep in *. cbn [Encode].
  change (padChar enc =? NoPadding) with true. cbv iota.
  change (Nat.min 8 4) with 4%nat.
  destruct (unpack_shape [p0; p1])
    as (u0 & u1 & u2 & u3 & u4 & u5 & u6 & u7 & E).
  rewrite E in *. cbn [map firstn] in *.
  injection Hu as H0 H1 H2 H3.
  rewrite <- (encode_at_mask u0), <- (encode_at_mask u1),
          <- (encode_at_mask u2), <- (encode_at_mask u3).
  rewrite H0, H1, H2, H3. reflexivity.
Qed.

Lemma decode_28 olen
    v0 v1 v2 v3 v4 v5 v6 v7 v8 v9 v10 v11 v12 v13 v14 v15
    v16 v17 v18 v19 v20 v21 v22 v23 v24 v25 v26 v27 :
  decode enc olen 0 []
    (map (encode_at enc)
       [v0; v1; v2; v3; v4; v5; v6; v7; v8; v9; v10; v11; v12; v13; v14; v15;
        v16; v17; v18; v19; v20; v21; v22; v23; v24; v25; v26; v27])
  = (pack (map mask [v0; v1; v2; v3; v4; v5; v6; v7]) 8 ++
     pack (map mask [v8; v9; v10; v11; v12; v13; v14; v15]) 8 ++
     pack (map mask [v16; v17; v18; v19; v20; v21; v22; v23]) 8 ++
     pack (map mask [v24; v25; v26; v27]) 4, None).
Proof.
  change (map (encode_at enc)
       [v0; v1; v2; v3; v4; v5; v6; v7; v8; v9; v10; v11; v12; v13; v14; v15;
        v16; v17; v18; v19; v20; v21; v22; v23; v24; v25; v26; v27])
    with (map (encode_at enc) [v0; v1; v2; v3; v4; v5; v6; v7] ++
          map (encode_at enc) [v8; v9; v10; v11; v12; v13; v14; v15] ++
          map (encode_at enc) [v16; v17; v18; v19; v20; v21; v22; v23] ++
          map (encode_at enc) [v24; v25; v26; v27]).
  rewrite !decode_quantum.
  cbn [map]. rewrite !decode_char by lia. rewrite decode_end by lia.
  reflexivity.
Qed.

(** Encoding the key decoded from a canonical string gives the string. *)
Lemma canonical_inv x :
  canonical x = true ->
  exists v0 v1 v2 v3 v4 v5 v6 v7 v8 v9 v10 v11 v12 v13 v14 v15
    v16 v17 v18 v19 v20 v21 v22 v23 v24 v25 v26 v27 w,
    x = string_of (map gostrings.lower_byte (map (encode_at enc)
          [v0; v1; v2; v3; v4; v5; v6; v7; v8; v9; v10; v11; v12; v13; v14;
           v15; v16; v17; v18; v19; v20; v21; v22; v23; v24; v25; v26; v27]))
    /\ mask v27 = band w x10.
Proof.
  unfold canonical. intros Hx.
  apply andb_true_iff in Hx as [Hx Hlast].
  apply andb_true_iff in Hx as [Hlen Hchars].
  apply Nat.eqb_eq in Hlen.
  destruct (key_chars_inv _ Hchars) as [vs Hvs].
  assert (Hvl : List.length vs = 28%nat).
  { rewrite <- Hlen, <- bytes_of_length, Hvs, !length_map. reflexivity. }
  assert (Ex : x = string_of (map gostrings.lower_byte (map (encode_at enc) vs))).
  { rewrite <- Hvs. symmetry. apply string_of_bytes_of. }
  rewrite Hvs, map_map in Hlast.
  rewrite (nth_indep _ x00
             (gostrings.lower_byte (encode_at enc x00))) in Hlast
    by (rewrite length_map, Hvl; lia).
  rewrite (map_nth (fun v => gostrings.lower_byte (encode_at enc v))) in Hlast.
  apply last_char_inv in Hlast as [w Hw].
  clear Hvs Hchars Hlen.
  do 28 (destruct vs as [|? vs]; [discriminate Hvl|]).
  destruct vs; [|discriminate Hvl].
  cbn [nth] in Hw.
  do 29 eexists. split; [exact Ex | exact Hw].
Qed.



Lemma FromBase32_success up (k k' : auth.EncryptionKey) x data :
  String.length x = 28%nat ->
  DecodeString enc (gostrings.ToUpper up x) = (data, None) ->
  auth.FromBase32 up k x = (k', auth.Return None) ->
  exists data1, data = auth.encKeyVersionByte :: data1 /\ k' = copy k data1.
Proof.
  intros Hl Hd. unfold auth.FromBase32. rewrite Hl, Hd.
  change (negb (28 =? auth.encKeySizeEncoded)%nat) with false. cbv iota.
  destruct data as [|d0 data1]; [discriminate|].
  destruct (negb (byte_eqb d0 auth.encKeyVersionByte)) eqn:Ever;
    [discriminate|].
  apply negb_false_iff, byte_eqb_eq in Ever. subst d0.
  intros [= <-]. exists data1. split; reflexivity.
Qed.

Lemma DecodeString_lower up vs :
  DecodeString enc
    (gostrings.ToUpper up
       (string_of (map gostrings.lower_byte (map (encode_at enc) vs))))
  = decode enc (Z.of_nat (List.length vs)) 0 [] (map (encode_at enc) vs).
Proof.
  assert (Hcs : Forall in_alphabet (map (encode_at enc) vs)).
  { induction vs as [|v vs IH]; constructor; [|exact IH].
    exists v. reflexivity. }
  rewrite ToUpper_ascii by (apply isASCII_lower_alphabet, Hcs).
  rewrite upper_lower_alphabet by exact Hcs.
  unfold DecodeString. rewrite bytes_of_string_of.
  rewrite stripNewlines_alphabet by exact Hcs.
  rewrite length_map. reflexivity.
Qed.

Lemma Encode_28
    v0 v1 v2 v3 v4 v5 v6 v7 v8 v9 v10 v11 v12 v13 v14 v15
    v16 v17 v18 v19 v20 v21 v22 v23 v24 v25 v26 v27 w :
  mask v27 = band w x10 ->
  Encode enc 28
    (pack (map mask [v0; v1; v2; v3; v4; v5; v6; v7]) 8 ++
     pack (map mask [v8; v9; v10; v11; v12; v13; v14; v15]) 8 ++
     pack (map mask [v16; v17; v18; v19; v20; v21; v22; v23]) 8 ++
     pack (map mask [v24; v25; v26; v27]) 4)
  = map (encode_at enc)
      [v0; v1; v2; v3; v4; v5; v6; v7; v8; v9; v10; v11; v12; v13; v14; v15;
       v16; v17; v18; v19; v20; v21; v22; v23; v24; v25; v26; v27].
Proof.
  intros Hw.
  change 28%nat with (8 + (8 + (8 + 4)))%nat.
  rewrite !Encode_pack_8.
  change (map mask [v24; v25; v26; v27])
    with [mask v24; mask v25; mask v26; mask v27].
  rewrite Hw, Encode_pack_4, <- Hw.
  change (map (encode_at enc) [mask v24; mask v25; mask v26; mask v27])
    with (map (encode_at enc) (map mask [v24; v25; v26; v27])).
  rewrite <- map_encode_mask, <- !map_app. reflexivity.
Qed.

Lemma packs_length q1 q2 q3 q4 :
  List.length (pack q1 8 ++ pack q2 8 ++ pack q3 8 ++ pack q4 4) = 17%nat.
Proof.
  destruct (pack_shape_8 q1) as (? & ? & ? & ? & ? & ->).
  destruct (pack_shape_8 q2) as (? & ? & ? & ? & ? & ->).
  destruct (pack_shape_8 q3) as (? & ? & ? & ? & ? & ->).
  destruct (pack_shape_4 q4) as (? & ? & ->).
  reflexivity.
Qed.

Lemma ToBase32_FromBase32 up low (k0 k : auth.EncryptionKey) x :
  canonical x = true -> List.length k0 = 16%nat ->
  auth.FromBase32 up k0 x = (k, auth.Return None) ->
  auth.ToBase32 low k = x.
Proof.
  intros Hx Hk0 Hfrom.
  destruct (canonical_inv x Hx)
    as (v0 & v1 & v2 & v3 & v4 & v5 & v6 & v7 & v8 & v9 & v10 & v11 & v12 &
        v13 & v14 & v15 & v16 & v17 & v18 & v19 & v20 & v21 & v22 & v23 &
        v24 & v25 & v26 & v27 & w & Ex & Hw).
  assert (Hlen : String.length x = 28%nat).
  { unfold canonical in Hx. apply andb_true_iff in Hx as [Hx _].
    apply andb_true_iff in Hx as [Hx _]. apply Nat.eqb_eq, Hx. }
  pose proof (DecodeString_lower up
    [v0; v1; v2; v3; v4; v5; v6; v7; v8; v9; v10; v11; v12; v13; v14; v15;
     v16; v17; v18; v19; v20; v21; v22; v23; v24; v25; v26; v27]) as Hd.
  rewrite <- Ex, decode_28 in Hd.
  destruct (FromBase32_success up k0 k x _ Hlen Hd Hfrom) as (data1 & Edata & ->).
  pose proof (packs_length (map mask [v0; v1; v2; v3; v4; v5; v6; v7])
    (map mask [v8; v9; v10; v11; v12; v13; v14; v15])
    (map mask [v16; v17; v18; v19; v20; v21; v22; v23])
    (map mask [v24; v25; v26; v27])) as Hl17.
  rewrite Edata in Hl17. cbn [List.length] in Hl17.
  rewrite copy_full by lia.
  unfold auth.ToBase32. rewrite ToBase32_chars.
  replace (Datatypes.S (List.length data1)) with 17%nat by lia.
  change (EncodedLen enc 17) with 28%nat.
  rewrite <- Edata, (Encode_28 _ _ _ _ _ _ _ _ _ _ _ _ _ _ _ _ _ _ _ _ _ _ _ _ _ _ _ _ w Hw).
  symmetry. exact Ex.
Qed.

(** What [ToBase32] returns is canonical. *)
Lemma lower_is_key_char v :
  is_key_char (gostrings.lower_byte (encode_at enc v)) = true.
Proof. destruct v; reflexivity. Qed.

Lemma last_block_char b :
  (let c := gostrings.lower_byte
              (encode_at enc (bor x00 (band (shl b 4) x1f))) in
   byte_eqb c x61 || byte_eqb c x71) = true.
Proof. destruct b; reflexivity. Qed.

Lemma unpack_2_block3 a b :
  nth 3 (unpack [a; b]) x00 = bor x00 (band (shl b 4) x1f).
Proof. reflexivity. Qed.

Lemma key_chars_lower cs :
  Forall in_alphabet cs ->
  forallb is_key_char (map gostrings.lower_byte cs) = true.
Proof.
  induction 1 as [|c cs [v ->] _ IH]; [reflexivity|].
  cbn [map forallb]. rewrite lower_is_key_char, IH. reflexivity.
Qed.

Lemma Encode_17_last s0 s1 s2 s3 s4 s5 s6 s7 s8 s9 s10 s11 s12 s13 s14 s15 s16 :
  nth 27
    (Encode enc 28
       [s0; s1; s2; s3; s4; s5; s6; s7; s8; s9; s10; s11; s12; s13; s14; s15;
        s16]) x00
  = encode_at enc (bor x00 (band (shl s16 4) x1f)).
Proof.
  change 28%nat with (8 + (8 + (8 + 4)))%nat.
  rewrite !Encode_5.
  rewrite <- (unpack_2_block3 s15 s16).
  destruct (unpack_shape [s0; s1; s2; s3; s4])
    as (? & ? & ? & ? & ? & ? & ? & ? & ->).
  destruct (unpack_shape [s5; s6; s7; s8; s9])
    as (? & ? & ? & ? & ? & ? & ? & ? & ->).
  destruct (unpack_shape [s10; s11; s12; s13; s14])
    as (? & ? & ? & ? & ? & ? & ? & ? & ->).
  cbn [Encode]. change (padChar enc =? NoPadding) with true. cbv iota.
  destruct (unpack_shape [s15; s16])
    as (u0 & u1 & u2 & u3 & ? & ? & ? & ? & ->).
  reflexivity.
Qed.

Lemma ToBase32_canonical low (k : auth.EncryptionKey) :
  List.length k = 16%nat -> canonical (auth.ToBase32 low k) = true.
Proof.
  intros Hk. unfold auth.ToBase32. rewrite ToBase32_chars.
  unfold canonical.
  set (cs := Encode enc (EncodedLen enc (Datatypes.S (List.length k)))
               (auth.encKeyVersionByte :: k)).
  assert (Hcs : Forall in_alphabet cs) by apply Encode_alphabet.
  assert (Hlen : List.length cs = 28%nat).
  { subst cs.
    change (Datatypes.S (List.length k))
      with (List.length (auth.encKeyVersionByte :: k)).
    rewrite Encode_length. cbn [List.length]. rewrite Hk. reflexivity. }
  rewrite string_of_length, length_map, Hlen, bytes_of_string_of.
  rewrite (key_chars_lower cs Hcs).
  change ((28 =? 28)%nat && true) with true. cbn [andb].
  rewrite (nth_indep _ x00 (gostrings.lower_byte x00))
    by (rewrite length_map, Hlen; lia).
  rewrite map_nth.
  subst cs. rewrite Hk.
  do 16 (destruct k as [|? k]; [discriminate Hk|]).
  destruct k; [|discriminate Hk].
  change (EncodedLen enc 17) with 28%nat.
  rewrite Encode_17_last. apply last_block_char.
Qed.

(** *** The claims about the codec *)

(** C7, as amended.  Decoding the encoding of any 16-byte key succeeds and
    gives the key.  Encoding the key decoded from a string gives the string
    back when the string is canonical: 28 characters of the lower-case
    alphabet, the last one [a] or [q].  What [ToBase32] returns for a key is
    always canonical, so no other accepted string is given back. *)
Theorem base32_round_trip up low :
  (forall k0 b : auth.EncryptionKey,
      List.length b = 16%nat -> List.length k0 = 16%nat ->
      auth.FromBase32 up k0 (auth.ToBase32 low b) = (b, auth.Return None)) /\
  (forall (k0 k : auth.EncryptionKey) x,
      canonical x = true -> List.length k0 = 16%nat ->
      auth.FromBase32 up k0 x = (k, auth.Return None) ->
      auth.ToBase32 low k = x) /\
  (forall k : auth.EncryptionKey,
      List.length k = 16%nat -> canonical (auth.ToBase32 low k) = true).
Proof.
  split; [|split].
  - intros k0 b. apply FromBase32_ToBase32.
  - intros k0 k x. apply ToBase32_FromBase32.
  - intros k. apply ToBase32_canonical.
Qed.

(** C7 as stated fails: a string of 28 characters of the alphabet with
    version tag 77 whose last character has one of its four low bits set is
    accepted, and the key it decodes to encodes to another string. *)
Lemma FromBase32_accepts_noncanonical :
  ~ (forall up low (k0 k : auth.EncryptionKey) x,
        List.length k0 = 16%nat ->
        String.length x = 28%nat ->
        forallb is_key_char (bytes_of x) = true ->
        auth.FromBase32 up k0 x = (k, auth.Return None) ->
        auth.ToBase32 low k = x).
Proof.
  intros Hclaim.
  specialize (Hclaim sample.unicode sample.unicode (zeros 16) (zeros 16)
                "juaaaaaaaaaaaaaaaaaaaaaaaaab"
                eq_refl eq_refl eq_refl eq_refl).
  vm_compute in Hclaim. discriminate Hclaim.
Qed.

Lemma base32_round_trip_witness :
  auth.FromBase32 sample.unicode (zeros 16)
    (auth.ToBase32 sample.unicode sample.key1)
  = (sample.key1, auth.Return None).
Proof.
  apply (proj1 (base32_round_trip sample.unicode sample.unicode)
           (zeros 16) sample.key1); reflexivity.
Defined.

(** C9. When [FromBase32] returns an error (wrong length, a base32 decoding
    error, a wrong version byte), and also when it panics, the receiver is
    as it was before the call. *)
Theorem FromBase32_atomic up (k k' : auth.EncryptionKey) encoded out :
  auth.FromBase32 up k encoded = (k', out) ->
  out <> auth.Return None ->
  k' = k.
Proof. apply FromBase32_receiver. Qed.

Lemma FromBase32_atomic_witness :
  fst (auth.FromBase32 sample.unicode sample.key1 "juaaaaaaaaaaaaaaaaaaaaaaaaa1")
  = sample.key1.
Proof.
  apply (FromBase32_atomic sample.unicode sample.key1 _
           "juaaaaaaaaaaaaaaaaaaaaaaaaa1"
           (snd (auth.FromBase32 sample.unicode sample.key1
                   "juaaaaaaaaaaaaaaaaaaaaaaaaa1"))).
  - apply surjective_pairing.
  - vm_compute. discriminate.
Defined.

(** C10 fails on the code.  A string of 28 line feeds passes the length
    check, the decoder drops the line feeds and returns no byte and no error,
    and reading [data[0]] panics.  With one line feed and 27 characters of
    the alphabet the decoder returns 15 bytes: [FromBase32] returns nil and
    has overwritten 14 bytes of the key only. *)
Theorem FromBase32_line_feeds up (k : auth.EncryptionKey) :
  auth.FromBase32 up k (sample.rep 28 sample.LF)
  = (k, auth.Panic "index out of range [0] with length 0") /\
  auth.FromBase32 up (repeat xff 16)
    (sample.LF +:+ "ju" +:+ sample.rep 25 "a")
  = (repeat x00 14 ++ [xff; xff], auth.Return None).
Proof. split; reflexivity. Qed.

End codec.


(** ** Error values *)

Lemma Has_Wrap c e : errs.Has c (errs.Wrap e) = errs.Has c e.
Proof. destruct e; reflexivity. Qed.

Lemma Has_New c msg : errs.Has c (errs.New msg) = false.
Proof. reflexivity. Qed.

Lemma Has_Class_New c msg : errs.Has c (errs.Class_New c msg) = true.
Proof.
  unfold errs.Class_New, errs.create. cbn [errs.Has].
  destruct (decide (Some c = Some c)); [reflexivity | contradiction].
Qed.

(** ** The reference backend honours the contract *)

#[global] Instance memkv_contract :
  contract.Contract (gmap auth.KeyHash store.Entry).
Proof.
  refine {| contract.kv_view := fun st => st |}.
  - intros st h r st'. cbn. unfold memkv.put.
    destruct (st !! h); intros [= <-]. reflexivity.
  - intros st h r e Hh. cbn. unfold memkv.put. rewrite Hh.
    eexists _, _. split; [reflexivity|]. split; [|reflexivity].
    apply Has_Class_New.
  - intros st h Hh. cbn. unfold memkv.get. rewrite Hh. reflexivity.
  - intros st h r Hh. cbn. unfold memkv.get. rewrite Hh. reflexivity.
  - intros st h r reason Hh. cbn. unfold memkv.get. rewrite Hh. cbn.
    eexists. reflexivity.
  - intros st h. eexists. split; reflexivity.
  - intros st h reason. eexists. split; reflexivity.
Defined.

(** ** The sample cipher opens what it sealed *)

Lemma sample_roundtrip data c key nonce box :
  sample.Encrypt data c key nonce = Ok box ->
  sample.Decrypt box c key nonce = Ok data.
Proof.
  unfold sample.Encrypt, sample.Decrypt. intros [= <-].
  set (tag := key ++ storj.ToAESGCMNonce nonce).
  rewrite (app_assoc key). fold tag.
  rewrite firstn_app, Nat.sub_diag, firstn_all, firstn_O, app_nil_r.
  rewrite bool_decide_true by reflexivity.
  rewrite skipn_app, Nat.sub_diag, skipn_all, skipn_O. reflexivity.
Qed.

Lemma sample_Decrypt_foreign box c key nonce e :
  sample.Decrypt box c key nonce = Err e ->
  errs.Has auth.NotFound e = false.
Proof.
  unfold sample.Decrypt.
  destruct (bool_decide _); intros [= <-]. reflexivity.
Qed.

(** ** The database *)

Module db_facts.
Import auth store contract notions.

Section facts.

Variable Sum256 : list byte -> list byte.
Variable ParseAccess : string -> result access2.Access.
Variable ParseNodeURL : string -> result storj.NodeURL.
Variables Encrypt Decrypt :
  list byte -> storj.CipherSuite -> list byte -> list byte ->
  result (list byte).
Context {S : Type} `{KV S}.

#[local] Abbreviation Put := (auth.Put Sum256 ParseAccess ParseNodeURL Encrypt).
#[local] Abbreviation Get := (auth.Get Sum256 Decrypt).
#[local] Abbreviation Hash := (auth.Hash Sum256).

(** A [Put] that returns no error went through every step. *)
Lemma Put_ok_inv (db db' : Database) k g p rnd s :
  Put db k g p rnd = ((s, None), db') ->
  exists access url esk eag,
    ParseAccess g = Ok access /\
    ParseNodeURL (access2.SatelliteAddress access) = Ok url /\
    storj.Address url ∈ allowedSatelliteAddresses db /\
    s = copy (zeros 32) (rand_bytes rnd) /\
    Encrypt s storj.EncAESGCM (ToStorjKey k) nonce_secret = Ok esk /\
    Encrypt (bytes_of g) storj.EncAESGCM (ToStorjKey k) nonce_grant = Ok eag /\
    kv_Put (kv db) (Hash k) (record_of access esk eag p) = (None, kv db') /\
    allowedSatelliteAddresses db' = allowedSatelliteAddresses db.
Proof.
  unfold auth.Put. intros E.
  destruct (ParseAccess g) as [access|] eqn:Ha; [|discriminate E].
  destruct (ParseNodeURL _) as [url|] eqn:Hu; [|discriminate E].
  destruct (bool_decide _) eqn:Hin; cbn [negb] in E; [|discriminate E].
  apply bool_decide_eq_true in Hin.
  unfold rand_Read in E.
  destruct (_ <=? _)%nat; [|discriminate E].
  destruct (Encrypt (copy _ _) _ _ _) as [esk|] eqn:E1; [|discriminate E].
  destruct (Encrypt (bytes_of g) _ _ _) as [eag|] eqn:E2; [|discriminate E].
  destruct (kv_Put _ _ _) as [[err|] kv'] eqn:E3; [discriminate E|].
  injection E as <- <-.
  exists access, url, esk, eag. repeat split; try assumption; reflexivity.
Qed.

(** A [Put] that reaches the store returns what the store's put returns. *)
Lemma Put_reaches_store (db : Database) k g p rnd access url esk eag :
  ParseAccess g = Ok access ->
  ParseNodeURL (access2.SatelliteAddress access) = Ok url ->
  storj.Address url ∈ allowedSatelliteAddresses db ->
  (32 <= List.length (rand_bytes rnd))%nat ->
  let s := copy (zeros 32) (rand_bytes rnd) in
  Encrypt s storj.EncAESGCM (ToStorjKey k) nonce_secret = Ok esk ->
  Encrypt (bytes_of g) storj.EncAESGCM (ToStorjKey k) nonce_grant = Ok eag ->
  Put db k g p rnd
  = let '(err, kv') := kv_Put (kv db) (Hash k) (record_of access esk eag p) in
    ((s, errs.Wrap_opt err), with_kv db kv').
Proof.
  intros Ha Hu Hin Hr s E1 E2. unfold auth.Put.
  rewrite Ha, Hu, bool_decide_true by exact Hin. cbn [negb].
  unfold rand_Read.
  replace (List.length (zeros 32) <=? List.length (rand_bytes rnd))%nat
    with true by (symmetry; apply Nat.leb_le; exact Hr).
  fold s. rewrite E1, E2. fold (record_of access esk eag p).
  destruct (kv_Put _ _ _) as [[err|] kv']; reflexivity.
Qed.

(** A grant whose satellite is not allowed is refused before the random
    source, the cipher and the store are touched. *)
Lemma Put_disallowed (db : Database) k g p rnd access url :
  ParseAccess g = Ok access ->
  ParseNodeURL (access2.SatelliteAddress access) = Ok url ->
  storj.Address url ∉ allowedSatelliteAddresses db ->
  Put db k g p rnd
  = ((zeros 32, Some (disallowed (access2.SatelliteAddress access))), db).
Proof.
  intros Ha Hu Hin. unfold auth.Put.
  rewrite Ha, Hu, bool_decide_false by exact Hin. reflexivity.
Qed.

(** [Get] reads the store only through [kv_Get] at the hash of the key. *)
Lemma Get_congr (db db' : Database) k :
  kv_Get (kv db') (Hash k) = kv_Get (kv db) (Hash k) ->
  Get db' k = Get db k.
Proof. intros E. unfold auth.Get. rewrite E. reflexivity. Qed.

(** What [Get] does with the record the store returns. *)
Lemma Get_record (db : Database) k rec :
  kv_Get (kv db) (Hash k) = (Some rec, None) ->
  Get db k
  = match Decrypt (EncryptedSecretKey rec) storj.EncAESGCM (ToStorjKey k)
            nonce_secret with
    | Err err => ("", false, zeros 32, Some (errs.Wrap err))
    | Ok sk =>
        match Decrypt (EncryptedAccessGrant rec) storj.EncAESGCM
                (ToStorjKey k) nonce_grant with
        | Err err => ("", false, copy (zeros 32) sk, Some (errs.Wrap err))
        | Ok ag => (string_of ag, Public rec, copy (zeros 32) sk, None)
        end
    end.
Proof. intros E. unfold auth.Get. rewrite E. reflexivity. Qed.

Lemma Get_ok_inv (db : Database) k g p s :
  Get db k = (g, p, s, None) ->
  exists rec sk ag,
    kv_Get (kv db) (Hash k) = (Some rec, None) /\
    Decrypt (EncryptedSecretKey rec) storj.EncAESGCM (ToStorjKey k)
      nonce_secret = Ok sk /\
    Decrypt (EncryptedAccessGrant rec) storj.EncAESGCM (ToStorjKey k)
      nonce_grant = Ok ag /\
    g = string_of ag /\ p = Public rec /\ s = copy (zeros 32) sk.
Proof.
  unfold auth.Get. intros E.
  destruct (kv_Get _ _) as [[rec|] [err|]]; try discriminate E.
  destruct (Decrypt (EncryptedSecretKey rec) _ _ _) as [sk|] eqn:E1;
    [|discriminate E].
  destruct (Decrypt (EncryptedAccessGrant rec) _ _ _) as [ag|] eqn:E2;
    [|discriminate E].
  injection E as <- <- <-.
  exists rec, sk, ag. repeat split; assumption.
Qed.

(** The store's get is determined by the view for absent and live keys. *)
Lemma kv_Get_same_view `{!Contract S} (st st' : S) h rec :
  kv_view st' = kv_view st ->
  kv_Get st h = (Some rec, None) -> kv_Get st' h = (Some rec, None).
Proof.
  intros Ev Eg.
  destruct (kv_view st !! h) as [[r [reason|]]|] eqn:Eh.
  - destruct (kv_get_invalid st h r reason Eh) as [err Ee].
    rewrite Ee in Eg. discriminate Eg.
  - pose proof (kv_get_live st h r Eh) as El.
    rewrite El in Eg. injection Eg as ->.
    apply kv_get_live. rewrite Ev. exact Eh.
  - rewrite (kv_get_absent st h Eh) in Eg. discriminate Eg.
Qed.

Lemma ToStorjKey_16 (k : EncryptionKey) :
  List.length k = 16%nat -> ToStorjKey k = k ++ repeat x00 16.
Proof.
  intros Hk. unfold ToStorjKey, copy, storj.KeySize, zeros.
  rewrite repeat_length, Hk. change (Nat.min 32 16) with 16%nat.
  rewrite <- Hk at 1. rewrite firstn_all. reflexivity.
Qed.

Lemma Put_then_Get `{!Contract S} (db db' : Database) k g p rnd s :
  (forall data key nonce box,
      Encrypt data storj.EncAESGCM key nonce = Ok box ->
      Decrypt box storj.EncAESGCM key nonce = Ok data) ->
  Put db k g p rnd = ((s, None), db') ->
  Get db' k = (g, p, s, None).
Proof.
  intros Haead E.
  destruct (Put_ok_inv _ _ _ _ _ _ _ E)
    as (access & url & esk & eag & _ & _ & _ & Es & E1 & E2 & E3 & _).
  apply kv_put_ok in E3.
  assert (Hlive : kv_view (kv db') !! Hash k
                  = Some (live (record_of access esk eag p)))
    by (rewrite E3; apply lookup_insert_eq).
  rewrite (Get_record db' k _ (kv_get_live _ _ _ Hlive)).
  cbn [record_of EncryptedSecretKey EncryptedAccessGrant Public].
  rewrite (Haead _ _ _ _ E1), (Haead _ _ _ _ E2).
  rewrite copy_full
    by (rewrite Es, copy_length; reflexivity).
  rewrite string_of_bytes_of. reflexivity.
Qed.

Lemma fold_allowed (l : list string) (m0 : gset string) a :
  a ∈ fold_left (fun (m : gset string) sat => {[ sat ]} ∪ m) l m0
  <-> a ∈ l \/ a ∈ m0.
Proof.
  revert m0. induction l as [|x l IH]; intros m0; cbn [fold_left].
  - split; [auto|]. intros [Hnil|Hm]; [inversion Hnil | exact Hm].
  - rewrite IH, elem_of_union, elem_of_singleton, elem_of_cons. tauto.
Qed.

Lemma NewDatabase_allowed (st : S) (l : list string) a :
  a ∈ allowedSatelliteAddresses (NewDatabase st l) <-> a ∈ l.
Proof.
  unfold NewDatabase. cbn [allowedSatelliteAddresses].
  rewrite fold_allowed. split; [|auto].
  intros [Hl|Hempty]; [exact Hl|]. apply elem_of_empty in Hempty as [].
Qed.

Lemma RemoveNodeIDs_from_ok ss : forall acc p,
  RemoveNodeIDs_from ParseNodeURL ss acc = (p, None) ->
  forall a, a ∈ p <->
    a ∈ acc \/ exists s u, s ∈ ss /\ ParseNodeURL s = Ok u /\ a = storj.Address u.
Proof.
  induction ss as [|s ss IH]; intros acc p E a; cbn [RemoveNodeIDs_from] in E.
  - injection E as <-. split; [auto|].
    intros [Ha|(s & u & Hs & _)]; [exact Ha|]. inversion Hs.
  - destruct (ParseNodeURL s) as [url|] eqn:Eu; [|discriminate E].
    rewrite (IH _ _ E a). rewrite elem_of_app, list_elem_of_singleton.
    split.
    + intros [[Ha| ->]|(s' & u & Hs & Hu & ->)].
      * left. exact Ha.
      * right. exists s, url. split; [left|]. split; [exact Eu | reflexivity].
      * right. exists s', u. split; [right; exact Hs|]. split; [exact Hu | reflexivity].
    + intros [Ha|(s' & u & Hs & Hu & ->)].
      * left. left. exact Ha.
      * apply elem_of_cons in Hs as [-> | Hs].
        -- left. right. congruence.
        -- right. exists s', u. split; [exact Hs|]. split; [exact Hu | reflexivity].
Qed.

(** *** The claims about the database *)

(** C1. When [Put(k, g, p)] succeeds and returns the secret key [s], a [Get(k)]
    on the database it leaves (nothing deleted or invalidated in between,
    the store honouring its contract, the cipher opening what it sealed)
    succeeds and returns exactly [(g, p, s)]. *)
Theorem Get_after_Put `{!Contract S} (db db' : Database) k g p rnd s :
  (forall data key nonce box,
      Encrypt data storj.EncAESGCM key nonce = Ok box ->
      Decrypt box storj.EncAESGCM key nonce = Ok data) ->
  Put db k g p rnd = ((s, None), db') ->
  Get db' k = (g, p, s, None).
Proof. apply Put_then_Get. Qed.


(** C3. When the store returns a record for [k] and opening the encrypted
    secret key or the encrypted access grant fails, [Get] returns that
    failure of the cipher, wrapped; it carries no grant.  The error is in the
    classes of the cipher's error and, the encryption library having no
    error of class [NotFound], it is not [NotFound]. *)
Theorem Get_decrypt_failure (db : Database) k rec e :
  (forall box c key nonce e',
      Decrypt box c key nonce = Err e' -> errs.Has NotFound e' = false) ->
  kv_Get (kv db) (Hash k) = (Some rec, None) ->
  Decrypt (EncryptedSecretKey rec) storj.EncAESGCM (ToStorjKey k) nonce_secret
    = Err e \/
  (exists sk,
      Decrypt (EncryptedSecretKey rec) storj.EncAESGCM (ToStorjKey k)
        nonce_secret = Ok sk /\
      Decrypt (EncryptedAccessGrant rec) storj.EncAESGCM (ToStorjKey k)
        nonce_grant = Err e) ->
  (exists s, Get db k = ("", false, s, Some (errs.Wrap e))) /\
  errs.Has NotFound (errs.Wrap e) = false /\
  (forall c, errs.Has c (errs.Wrap e) = errs.Has c e).
Proof.
  intros Hlib Ekv Hfail.
  rewrite (Get_record db k rec Ekv).
  split; [|split].
  - destruct Hfail as [E1 | (sk & E1 & E2)].
    + rewrite E1. eexists. reflexivity.
    + rewrite E1, E2. eexists. reflexivity.
  - rewrite Has_Wrap.
    destruct Hfail as [E1 | (sk & _ & E2)]; eapply Hlib; eassumption.
  - intros c. apply Has_Wrap.
Qed.


(** C5. With the configured node URLs reduced by [RemoveNodeIDs] and given to
    [NewDatabase], the allow-list holds exactly the address components of the
    entries.  [Put] parses the satellite address of the grant and looks its
    address component up: when no entry has that address component it fails
    with the error for a disallowed satellite, and when an entry has it,
    whatever the node IDs on either side, the grant passes and, the random
    source and the cipher working, the record is handed to the store. *)
Theorem allow_list_by_address (st : S) ss allowed :
  RemoveNodeIDs ParseNodeURL ss = (allowed, None) ->
  let db := NewDatabase st allowed in
  (forall a,
      a ∈ allowedSatelliteAddresses db <->
      exists s u, s ∈ ss /\ ParseNodeURL s = Ok u /\ a = storj.Address u) /\
  (forall k g p rnd access url,
      ParseAccess g = Ok access ->
      ParseNodeURL (access2.SatelliteAddress access) = Ok url ->
      ((forall s u, s ∈ ss -> ParseNodeURL s = Ok u ->
                    storj.Address u <> storj.Address url) ->
       Put db k g p rnd
       = ((zeros 32, Some (disallowed (access2.SatelliteAddress access))), db))
      /\
      (forall s u esk eag,
          s ∈ ss -> ParseNodeURL s = Ok u ->
          storj.Address u = storj.Address url ->
          (32 <= List.length (rand_bytes rnd))%nat ->
          let sk := copy (zeros 32) (rand_bytes rnd) in
          Encrypt sk storj.EncAESGCM (ToStorjKey k) nonce_secret = Ok esk ->
          Encrypt (bytes_of g) storj.EncAESGCM (ToStorjKey k) nonce_grant
            = Ok eag ->
          Put db k g p rnd
          = let '(err, kv') :=
              kv_Put st (Hash k) (record_of access esk eag p) in
            ((sk, errs.Wrap_opt err), with_kv db kv'))).
Proof.
  intros Ess db.
  assert (Hallowed : forall a,
      a ∈ allowedSatelliteAddresses db <->
      exists s u, s ∈ ss /\ ParseNodeURL s = Ok u /\ a = storj.Address u).
  { intros a. unfold db. rewrite NewDatabase_allowed.
    rewrite (RemoveNodeIDs_from_ok ss [] allowed Ess a).
    split; [|auto].
    intros [Hnil|Hex]; [inversion Hnil | exact Hex]. }
  split; [exact Hallowed|].
  intros k g p rnd access url Ha Hu. split.
  - intros Hnone. apply Put_disallowed with (url := url); [exact Ha | exact Hu |].
    intros Hin. apply Hallowed in Hin as (s & u & Hs & Hp & Eq).
    apply (Hnone s u Hs Hp). congruence.
  - intros s u esk eag Hs Hp Eq Hr sk E1 E2.
    apply (Put_reaches_store db k g p rnd access url esk eag Ha Hu); try assumption.
    apply Hallowed. exists s, u. split; [exact Hs|]. split; [exact Hp|].
    congruence.
Qed.


(** C8. When the grant parses and the address component of its satellite
    address is not on the allow-list, [Put] fails with the error for a
    disallowed satellite and returns the database, and with it the state of
    the store, as it was: for whatever store, its put is not called.  (A
    satellite address that is no node URL at all is refused with the error of
    the URL parser, one step earlier and as much without the store.) *)
Theorem Put_disallowed_satellite (db : Database) k g p rnd access :
  ParseAccess g = Ok access ->
  (forall url,
      ParseNodeURL (access2.SatelliteAddress access) = Ok url ->
      storj.Address url ∉ allowedSatelliteAddresses db ->
      Put db k g p rnd
      = ((zeros 32,
          Some (errs.New ("access grant contains disallowed satellite '" +:+
                          access2.SatelliteAddress access +:+ "'"))), db)
      /\ kv (snd (Put db k g p rnd)) = kv db) /\
  (forall e,
      ParseNodeURL (access2.SatelliteAddress access) = Err e ->
      Put db k g p rnd = ((zeros 32, Some e), db)).
Proof.
  intros Ha. split.
  - intros url Hu Hin.
    rewrite (Put_disallowed db k g p rnd access url Ha Hu Hin).
    split; reflexivity.
  - intros e Hu. unfold auth.Put. rewrite Ha, Hu. reflexivity.
Qed.

(** Whatever [Put] is given, it changes the store only by the store's put,
    on a record whose satellite address is the grant's and has its address
    component on the allow-list. *)
Lemma Put_persists_only_allowed (db db' : Database) k g p rnd res :
  Put db k g p rnd = (res, db') ->
  db' = db \/
  exists access url esk eag,
    ParseAccess g = Ok access /\
    ParseNodeURL (access2.SatelliteAddress access) = Ok url /\
    storj.Address url ∈ allowedSatelliteAddresses db /\
    db' = with_kv db
            (snd (kv_Put (kv db) (Hash k) (record_of access esk eag p))).
Proof.
  unfold auth.Put, rand_Read. intros E.
  destruct (ParseAccess g) as [access|] eqn:Ha;
    [|left; injection E as _ <-; reflexivity].
  destruct (ParseNodeURL _) as [url|] eqn:Hu;
    [|left; injection E as _ <-; reflexivity].
  destruct (bool_decide _) eqn:Hin; cbn [negb] in E;
    [|left; injection E as _ <-; reflexivity].
  apply bool_decide_eq_true in Hin.
  destruct (_ <=? _)%nat; [|left; injection E as _ <-; reflexivity].
  destruct (Encrypt (copy _ _) _ _ _) as [esk|];
    [|left; injection E as _ <-; reflexivity].
  destruct (Encrypt (bytes_of g) _ _ _) as [eag|];
    [|left; injection E as _ <-; reflexivity].
  right. exists access, url, esk, eag.
  split; [reflexivity|]. split; [exact Hu|]. split; [exact Hin|].
  fold (record_of access esk eag p) in E.
  destruct (kv_Put _ _ _) as [[err|] kv']; injection E as _ <-; reflexivity.
Qed.

End facts.
End db_facts.

(** ** The database on the sample libraries and the reference backend *)

Module examples.
Import auth store contract notions scenario.

#[local] Abbreviation Put :=
  (auth.Put sample.Sum256 sample.ParseAccess sample.ParseNodeURL sample.Encrypt).
#[local] Abbreviation Get := (auth.Get sample.Sum256 sample.Decrypt).
#[local] Abbreviation Hash := (auth.Hash sample.Sum256).
#[local] Abbreviation DB := (@Database (gmap KeyHash Entry)).

Lemma Put1 : Put db0 sample.key1 grant1 false sample.rnd1 = ((secret1, None), db1).
Proof.
  unfold db1. rewrite (surjective_pairing (Put _ _ _ _ _)) at 1.
  f_equal.
Qed.

Lemma sample_aead data key nonce box :
  sample.Encrypt data storj.EncAESGCM key nonce = Ok box ->
  sample.Decrypt box storj.EncAESGCM key nonce = Ok data.
Proof. apply sample_roundtrip. Qed.

Lemma view_db1 :
  kv_view (kv db1) !! Hash sample.key1 = Some (live record1).
Proof. vm_compute. reflexivity. Qed.

Lemma view_db2 :
  kv_view (kv db2) !! Hash sample.key1
  = Some {| entry_record := record1; entry_invalid := Some "abuse" |}.
Proof. vm_compute. reflexivity. Qed.

Lemma Get_after_Put_witness :
  Put db0 sample.key1 grant1 false sample.rnd1 = ((secret1, None), db1) /\
  Get db1 sample.key1 = (grant1, false, secret1, None).
Proof.
  split; [exact Put1|].
  exact (db_facts.Get_after_Put sample.Sum256 sample.ParseAccess
           sample.ParseNodeURL sample.Encrypt sample.Decrypt
           db0 db1 sample.key1 grant1 false sample.rnd1 secret1
           sample_aead Put1).
Defined.


Lemma Get_decrypt_failure_witness :
  kv_Get (kv db_bad) (Hash sample.key1)
  = (Some {| SatelliteAddress := grant1;
             MacaroonHead := [];
             EncryptedSecretKey := [x00];
             EncryptedAccessGrant := [x00];
             Public := false |}, None) /\
  (exists s,
      Get db_bad sample.key1
      = ("", false, s,
         Some (errs.Wrap (errs.Class_New sample.ErrDecryptFailed
                            "cipher: message authentication failed")))) /\
  errs.Has NotFound
    (errs.Wrap (errs.Class_New sample.ErrDecryptFailed
                  "cipher: message authentication failed")) = false.
Proof.
  assert (Ekv : kv_Get (kv db_bad) (Hash sample.key1)
                = (Some {| SatelliteAddress := grant1;
                           MacaroonHead := [];
                           EncryptedSecretKey := [x00];
                           EncryptedAccessGrant := [x00];
                           Public := false |}, None))
    by (vm_compute; reflexivity).
  split; [exact Ekv|].
  destruct (db_facts.Get_decrypt_failure sample.Sum256 sample.Decrypt
              db_bad sample.key1 _
              (errs.Class_New sample.ErrDecryptFailed
                 "cipher: message authentication failed")
              sample_Decrypt_foreign Ekv (or_introl eq_refl))
    as (Hget & Hnf & _).
  split; [exact Hget | exact Hnf].
Defined.



Lemma allow_list_by_address_witness :
  RemoveNodeIDs sample.ParseNodeURL configured
  = (["sat1.example:7777"; "sat2.example:7777"], None) /\
  (forall a,
      a ∈ allowedSatelliteAddresses db0 <->
      exists s u,
        s ∈ configured /\ sample.ParseNodeURL s = Ok u /\ a = storj.Address u).
Proof.
  split; [reflexivity|].
  exact (proj1 (db_facts.allow_list_by_address sample.Sum256 sample.ParseAccess
                  sample.ParseNodeURL sample.Encrypt
                  (∅ : gmap KeyHash Entry) configured
                  ["sat1.example:7777"; "sat2.example:7777"] eq_refl)).
Defined.



Lemma Put_disallowed_satellite_witness :
  Put db0 sample.key1 grant3 false sample.rnd1
  = ((zeros 32,
      Some (errs.New ("access grant contains disallowed satellite '" +:+
                      grant3 +:+ "'"))), db0)
  /\ kv (snd (Put db0 sample.key1 grant3 false sample.rnd1)) = kv db0.
Proof.
  refine (proj1 (db_facts.Put_disallowed_satellite sample.Sum256
                   sample.ParseAccess sample.ParseNodeURL sample.Encrypt
                   db0 sample.key1 grant3 false sample.rnd1
                   {| access2.SatelliteAddress := grant3;
                      access2.APIKey_Head := [] |}
                   eq_refl)
            {| storj.ID := bytes_of "9xyz";
               storj.Address := "sat3.example:7777" |}
            eq_refl _).
  apply (bool_decide_eq_false_1
           ("sat3.example:7777" ∈ allowedSatelliteAddresses db0)).
  vm_compute. reflexivity.
Defined.

(** The scenarios of the reference backend, run: a wrong key finds nothing,
    a second put under the same key is refused and changes nothing, and after
    an invalidation [Get] returns the store's error of class [Invalid]. *)
Example scenarios :
  (exists e,
      Get db1 (repeat x07 16) = ("", false, zeros 32, Some e) /\
      errs.Has NotFound e = true) /\
  (exists e,
      fst (Put db1 sample.key1 grant2 true sample.rnd1) = (secret1, Some e) /\
      errs.Has AlreadyExists e = true) /\
  (exists e,
      Get db2 sample.key1 = ("", false, zeros 32, Some e) /\
      errs.Has Invalid e = true /\ errs.Has NotFound e = false) /\
  Get (snd (auth.Delete sample.Sum256 db1 sample.key1)) sample.key1
  = Get db0 sample.key1.
Proof.
  split; [|split; [|split]].
  - eexists. split; [vm_compute; reflexivity | vm_compute; reflexivity].
  - eexists. split; [vm_compute; reflexivity | vm_compute; reflexivity].
  - eexists. split; [vm_compute; reflexivity|].
    split; [vm_compute; reflexivity | vm_compute; reflexivity].
  - vm_compute. reflexivity.
Qed.

End examples.

(** ** More on the codec *)

Module codec_more.
Import base32 notions codec_notions base32_facts codec.

#[local] Abbreviation enc := auth.base32Encoding.

Lemma DecodeString_of_lower up cs :
  Forall in_alphabet cs ->
  DecodeString enc
    (gostrings.ToUpper up (string_of (map gostrings.lower_byte cs)))
  = decode enc (Z.of_nat (List.length cs)) 0 [] cs.
Proof.
  intros Hcs.
  rewrite ToUpper_ascii by (apply isASCII_lower_alphabet, Hcs).
  rewrite upper_lower_alphabet by exact Hcs.
  unfold DecodeString. rewrite bytes_of_string_of.
  rewrite stripNewlines_alphabet by exact Hcs. reflexivity.
Qed.

Lemma ToBase32_with_decodes up low ver (k : list byte) :
  DecodeString enc (gostrings.ToUpper up (auth.ToBase32_with low ver k))
  = (ver :: k, None).
Proof.
  rewrite ToBase32_chars.
  rewrite DecodeString_of_lower by apply Encode_alphabet.
  change (Datatypes.S (List.length k)) with (List.length (ver :: k)).
  apply decode_Encode.
Qed.

Lemma ToBase32_with_length low ver (k : list byte) :
  String.length (auth.ToBase32_with low ver k)
  = EncodedLen enc (Datatypes.S (List.length k)).
Proof.
  rewrite ToBase32_chars, string_of_length, length_map.
  change (Datatypes.S (List.length k)) with (List.length (ver :: k)).
  apply Encode_length.
Qed.

Lemma ToBase32_with_chars low ver (k : list byte) :
  forallb is_key_char (bytes_of (auth.ToBase32_with low ver k)) = true.
Proof.
  rewrite ToBase32_chars, bytes_of_string_of.
  apply key_chars_lower, Encode_alphabet.
Qed.

(** [FromBase32] on a string of 28 bytes that decodes. *)
Lemma FromBase32_decoded up (k : auth.EncryptionKey) x data :
  String.length x = 28%nat ->
  DecodeString enc (gostrings.ToUpper up x) = (data, None) ->
  auth.FromBase32 up k x
  = match data with
    | [] => (k, auth.Panic "index out of range [0] with length 0")
    | d0 :: data1 =>
        if negb (byte_eqb d0 auth.encKeyVersionByte) then
          (k, auth.Return (Some wrong_version))
        else (copy k data1, auth.Return None)
    end.
Proof.
  intros Hl Hd. unfold auth.FromBase32. rewrite Hl, Hd. reflexivity.
Qed.

Lemma ToLower_ascii_string low x :
  gostrings.isASCII (bytes_of x) = true ->
  gostrings.ToLower low x = string_of (map gostrings.lower_byte (bytes_of x)).
Proof.
  intros Ha. rewrite <- (string_of_bytes_of x) at 1. apply ToLower_ascii, Ha.
Qed.

Lemma ToUpper_ascii_string up x :
  gostrings.isASCII (bytes_of x) = true ->
  gostrings.ToUpper up x = string_of (map gostrings.upper_byte (bytes_of x)).
Proof.
  intros Ha. rewrite <- (string_of_bytes_of x) at 1. apply ToUpper_ascii, Ha.
Qed.

Lemma base32_char_inv c :
  is_base32_char c = true ->
  (b2z c <? gostrings.RuneSelf) = true /\
  gostrings.upper_byte c
  = encode_at enc (decode_at enc (gostrings.upper_byte c)).
Proof.
  intros Hc.
  destruct c; vm_compute in Hc; try discriminate Hc; split; reflexivity.
Qed.

Lemma base32_chars_inv bs :
  forallb is_base32_char bs = true ->
  gostrings.isASCII bs = true /\
  exists vs, map gostrings.upper_byte bs = map (encode_at enc) vs.
Proof.
  induction bs as [|c bs IH]; intros Hbs.
  - split; [reflexivity|]. exists []. reflexivity.
  - cbn [forallb] in Hbs. apply andb_true_iff in Hbs as [Hc Hbs].
    destruct (base32_char_inv c Hc) as [Ha Hu].
    destruct (IH Hbs) as [Has [vs Hvs]].
    split.
    + unfold gostrings.isASCII in *. cbn [forallb]. rewrite Ha, Has. reflexivity.
    + exists (decode_at enc (gostrings.upper_byte c) :: vs).
      cbn [map]. rewrite <- Hu, Hvs. reflexivity.
Qed.

Lemma DecodeString_alphabet vs :
  DecodeString enc (string_of (map (encode_at enc) vs))
  = decode enc (Z.of_nat (List.length vs)) 0 [] (map (encode_at enc) vs).
Proof.
  assert (Hcs : Forall in_alphabet (map (encode_at enc) vs)).
  { induction vs as [|v vs IH]; constructor; [|exact IH].
    exists v. reflexivity. }
  unfold DecodeString. rewrite bytes_of_string_of.
  rewrite stripNewlines_alphabet by exact Hcs.
  rewrite length_map. reflexivity.
Qed.

Lemma packs_shape q1 q2 q3 q4 :
  exists d0 data1,
    List.length data1 = 16%nat /\
    pack q1 8 ++ pack q2 8 ++ pack q3 8 ++ pack q4 4 = d0 :: data1.
Proof.
  destruct (pack_shape_8 q1) as (p0 & ? & ? & ? & ? & ->).
  destruct (pack_shape_8 q2) as (? & ? & ? & ? & ? & ->).
  destruct (pack_shape_8 q3) as (? & ? & ? & ? & ? & ->).
  destruct (pack_shape_4 q4) as (? & ? & ->).
  eexists _, _. split; [|reflexivity]. reflexivity.
Qed.

(** A string of 28 characters of the alphabet decodes to 17 bytes. *)
Lemma wellformed_decodes up x :
  wellformed x = true ->
  exists d0 data1,
    List.length data1 = 16%nat /\
    DecodeString enc (gostrings.ToUpper up x) = (d0 :: data1, None).
Proof.
  unfold wellformed. intros Hx.
  apply andb_true_iff in Hx as [Hlen Hchars].
  apply Nat.eqb_eq in Hlen.
  destruct (base32_chars_inv _ Hchars) as [Hascii [vs Hvs]].
  assert (Hvl : List.length vs = 28%nat).
  { rewrite <- Hlen, <- bytes_of_length.
    rewrite <- (length_map gostrings.upper_byte (bytes_of x)), Hvs, length_map.
    reflexivity. }
  rewrite (ToUpper_ascii_string up x Hascii), Hvs, DecodeString_alphabet.
  clear Hvs Hchars Hascii Hlen.
  do 28 (destruct vs as [|? vs]; [discriminate Hvl|]).
  destruct vs; [|discriminate Hvl].
  rewrite decode_28.
  match goal with
  | |- context [pack ?q1 8 ++ pack ?q2 8 ++ pack ?q3 8 ++ pack ?q4 4] =>
      destruct (packs_shape q1 q2 q3 q4) as (d0 & data1 & Hl & ->)
  end.
  exists d0, data1. split; [exact Hl | reflexivity].
Qed.

Lemma case_bytes c :
  gostrings.upper_byte (gostrings.upper_byte c) = gostrings.upper_byte c /\
  gostrings.upper_byte (gostrings.lower_byte c) = gostrings.upper_byte c /\
  (b2z (gostrings.upper_byte c) <? gostrings.RuneSelf)
    = (b2z c <? gostrings.RuneSelf) /\
  (b2z (gostrings.lower_byte c) <? gostrings.RuneSelf)
    = (b2z c <? gostrings.RuneSelf).
Proof. destruct c; repeat split. Qed.

Lemma isASCII_map f bs :
  (forall c, (b2z (f c) <? gostrings.RuneSelf) = (b2z c <? gostrings.RuneSelf)) ->
  gostrings.isASCII (map f bs) = gostrings.isASCII bs.
Proof.
  intros Hf. unfold gostrings.isASCII.
  induction bs as [|b bs IH]; [reflexivity|].
  cbn [map forallb]. rewrite Hf, IH. reflexivity.
Qed.

Lemma map_case_bytes f bs :
  (forall c, gostrings.upper_byte (f c) = gostrings.upper_byte c) ->
  map gostrings.upper_byte (map f bs) = map gostrings.upper_byte bs.
Proof.
  intros Hf. induction bs as [|b bs IH]; [reflexivity|].
  cbn [map]. rewrite Hf, IH. reflexivity.
Qed.

(** [FromBase32] looks at its input through its length and [ToUpper]. *)
Lemma FromBase32_same up (k : auth.EncryptionKey) x y :
  String.length y = String.length x ->
  gostrings.ToUpper up y = gostrings.ToUpper up x ->
  auth.FromBase32 up k y = auth.FromBase32 up k x.
Proof. intros El Eu. unfold auth.FromBase32. rewrite El, Eu. reflexivity. Qed.

(** *** Properties of the codec *)

(** X1. [ToBase32(versionByte, k)] is undone by upper-casing and base32
    decoding, for every version byte and every buffer, of whatever length:
    the decoder returns the version byte followed by [k], and no error. *)
Theorem ToBase32_decodes up low ver (k : list byte) :
  DecodeString enc (gostrings.ToUpper up (auth.ToBase32_with low ver k))
  = (ver :: k, None).
Proof. apply ToBase32_with_decodes. Qed.

(** X2. [ToBase32] is injective in the version byte and the buffer: two
    encodings are equal only for the same version byte and the same bytes.
    In particular no encryption key and secret key share an encoding. *)
Theorem ToBase32_injective low ver ver' (k k' : list byte) :
  auth.ToBase32_with low ver k = auth.ToBase32_with low ver' k' ->
  ver = ver' /\ k = k'.
Proof.
  intros E.
  pose proof (ToBase32_with_decodes (fun s => s) low ver k) as D.
  rewrite E, ToBase32_with_decodes in D.
  injection D as -> ->. split; reflexivity.
Qed.

Lemma ToBase32_injective_witness :
  x4d = x4d /\ sample.key1 = sample.key1.
Proof.
  exact (ToBase32_injective sample.unicode x4d x4d sample.key1 sample.key1
           eq_refl).
Defined.

(** X3. The encoding of a buffer of [n] bytes has [(8 * (n + 1) + 4) / 5]
    characters, all of the lower-case alphabet [a-z2-7]: 28 for an encryption
    key of 16 bytes and 53 for a secret key of 32 bytes. *)
Theorem ToBase32_shape low :
  (forall ver (k : list byte),
      String.length (auth.ToBase32_with low ver k)
      = ((8 * (List.length k + 1) + 4) / 5)%nat /\
      forallb is_key_char (bytes_of (auth.ToBase32_with low ver k)) = true) /\
  (forall k : auth.EncryptionKey,
      List.length k = 16%nat -> String.length (auth.ToBase32 low k) = 28%nat) /\
  (forall s : auth.SecretKey,
      List.length s = 32%nat ->
      String.length (auth.SecretKey_ToBase32 low s) = 53%nat).
Proof.
  split; [|split].
  - intros ver k. split; [|apply ToBase32_with_chars].
    rewrite ToBase32_with_length. unfold EncodedLen.
    change (padChar enc =? NoPadding) with true. cbv iota.
    f_equal. lia.
  - intros k Hk. unfold auth.ToBase32.
    rewrite ToBase32_with_length, Hk. reflexivity.
  - intros s Hs. unfold auth.SecretKey_ToBase32.
    rewrite ToBase32_with_length, Hs. reflexivity.
Qed.

Lemma ToBase32_shape_witness :
  String.length (auth.ToBase32 sample.unicode sample.key1) = 28%nat.
Proof.
  exact (proj1 (proj2 (ToBase32_shape sample.unicode)) sample.key1 eq_refl).
Defined.

(** X4. [FromBase32] checks the version byte: the encoding of 16 bytes under
    any version byte other than 77 is refused with the error for a wrong
    first byte, and the receiver is left as it was. *)
Theorem FromBase32_wrong_version up low ver (k0 b : auth.EncryptionKey) :
  List.length b = 16%nat ->
  ver <> auth.encKeyVersionByte ->
  auth.FromBase32 up k0 (auth.ToBase32_with low ver b)
  = (k0, auth.Return (Some wrong_version)).
Proof.
  intros Hb Hver.
  rewrite (FromBase32_decoded up k0 _ (ver :: b)).
  - destruct (byte_eqb ver auth.encKeyVersionByte) eqn:E; [|reflexivity].
    apply byte_eqb_eq in E. contradiction.
  - rewrite ToBase32_with_length, Hb. reflexivity.
  - apply ToBase32_with_decodes.
Qed.

Lemma FromBase32_wrong_version_witness :
  auth.FromBase32 sample.unicode sample.key1
    (auth.ToBase32_with sample.unicode auth.secKeyVersionByte (zeros 16))
  = (sample.key1, auth.Return (Some wrong_version)).
Proof.
  apply FromBase32_wrong_version; [reflexivity | discriminate].
Defined.

(** X5. The encoding of a secret key is never taken for an encryption key:
    [FromBase32] refuses it for its length, 53 instead of 28, before it
    decodes anything, and leaves the receiver as it was. *)
Theorem FromBase32_refuses_secret_key up low (k0 : auth.EncryptionKey)
    (s : auth.SecretKey) :
  List.length s = 32%nat ->
  auth.FromBase32 up k0 (auth.SecretKey_ToBase32 low s)
  = (k0, auth.Return (Some (wrong_length 53))).
Proof.
  intros Hs. unfold auth.FromBase32, auth.SecretKey_ToBase32.
  rewrite ToBase32_with_length, Hs. reflexivity.
Qed.

Lemma FromBase32_refuses_secret_key_witness :
  auth.FromBase32 sample.unicode sample.key1
    (auth.SecretKey_ToBase32 sample.unicode (repeat x5a 32))
  = (sample.key1, auth.Return (Some (wrong_length 53))).
Proof. apply FromBase32_refuses_secret_key. reflexivity. Defined.

(** X6. On a string of 28 characters of the base32 alphabet, in upper or
    lower case, [FromBase32] does not panic and returns no decoding error:
    the string decodes to a first byte and 16 more; the call either refuses
    the first byte and keeps the receiver, or returns nil with the receiver
    set to those 16 bytes, whatever it held before. *)
Theorem FromBase32_wellformed up x :
  wellformed x = true ->
  exists d0 (key : auth.EncryptionKey),
    List.length key = 16%nat /\
    forall k0 : auth.EncryptionKey,
      List.length k0 = 16%nat ->
      auth.FromBase32 up k0 x
      = if byte_eqb d0 auth.encKeyVersionByte
        then (key, auth.Return None)
        else (k0, auth.Return (Some wrong_version)).
Proof.
  intros Hx.
  destruct (wellformed_decodes up x Hx) as (d0 & data1 & Hl & Hd).
  exists d0, data1. split; [exact Hl|].
  intros k0 Hk0.
  assert (Hlen : String.length x = 28%nat).
  { unfold wellformed in Hx. apply andb_true_iff in Hx as [Hx _].
    apply Nat.eqb_eq, Hx. }
  rewrite (FromBase32_decoded up k0 x _ Hlen Hd).
  destruct (byte_eqb d0 auth.encKeyVersionByte); cbn [negb]; [|reflexivity].
  rewrite copy_full by congruence. reflexivity.
Qed.

Lemma FromBase32_wellformed_witness :
  exists d0 (key : auth.EncryptionKey),
    List.length key = 16%nat /\
    forall k0 : auth.EncryptionKey,
      List.length k0 = 16%nat ->
      auth.FromBase32 sample.unicode k0 "JuAAAAAAAAAAaaaaaaaaaaaa2345"
      = if byte_eqb d0 auth.encKeyVersionByte
        then (key, auth.Return None)
        else (k0, auth.Return (Some wrong_version)).
Proof.
  exact (FromBase32_wellformed sample.unicode "JuAAAAAAAAAAaaaaaaaaaaaa2345"
           eq_refl).
Defined.

(** X7. [FromBase32] reads its input without regard to case: on a string of
    ASCII bytes it gives the same result for the string, for its upper-case
    form and for its lower-case form. *)
Theorem FromBase32_case_insensitive up low (k : auth.EncryptionKey) x :
  gostrings.isASCII (bytes_of x) = true ->
  auth.FromBase32 up k (gostrings.ToUpper up x) = auth.FromBase32 up k x /\
  auth.FromBase32 up k (gostrings.ToLower low x) = auth.FromBase32 up k x.
Proof.
  intros Ha.
  pose proof (fun c => proj1 (case_bytes c)) as Huu.
  pose proof (fun c => proj1 (proj2 (case_bytes c))) as Hul.
  pose proof (fun c => proj1 (proj2 (proj2 (case_bytes c)))) as Hau.
  pose proof (fun c => proj2 (proj2 (proj2 (case_bytes c)))) as Hal.
  split; apply FromBase32_same.
  - rewrite ToUpper_ascii_string by exact Ha.
    rewrite string_of_length, length_map. apply bytes_of_length.
  - rewrite (ToUpper_ascii_string up x Ha).
    rewrite ToUpper_ascii by (rewrite isASCII_map; assumption).
    rewrite map_case_bytes by exact Huu. reflexivity.
  - rewrite ToLower_ascii_string by exact Ha.
    rewrite string_of_length, length_map. apply bytes_of_length.
  - rewrite (ToLower_ascii_string low x Ha), (ToUpper_ascii_string up x Ha).
    rewrite ToUpper_ascii by (rewrite isASCII_map; assumption).
    rewrite map_case_bytes by exact Hul. reflexivity.
Qed.

Lemma FromBase32_case_insensitive_witness :
  auth.FromBase32 sample.unicode sample.key1
    (gostrings.ToUpper sample.unicode "juaaaaaaaaaaaaaaaaaaaaaaaaaa")
  = auth.FromBase32 sample.unicode sample.key1 "juaaaaaaaaaaaaaaaaaaaaaaaaaa".
Proof.
  exact (proj1 (FromBase32_case_insensitive sample.unicode sample.unicode
                  sample.key1 "juaaaaaaaaaaaaaaaaaaaaaaaaaa" eq_refl)).
Defined.

(** X8. [NewEncryptionKey] always returns 16 bytes.  When the random source
    delivers 16 bytes the key is exactly those bytes, the version byte the
    array started with being overwritten, no error is returned, and the key
    comes back from its encoding.  When the source delivers fewer, the error
    of the source is returned with the delivered bytes in front of what is
    left of the initial array. *)
Theorem NewEncryptionKey_result up low (rnd : entropy) :
  let key := fst (auth.NewEncryptionKey rnd) in
  let err := snd (auth.NewEncryptionKey rnd) in
  List.length key = 16%nat /\
  ((16 <= List.length (rand_bytes rnd))%nat ->
     err = None /\ key = firstn 16 (rand_bytes rnd) /\
     forall k0 : auth.EncryptionKey,
       List.length k0 = 16%nat ->
       auth.FromBase32 up k0 (auth.ToBase32 low key) = (key, auth.Return None)) /\
  ((List.length (rand_bytes rnd) < 16)%nat ->
     err = Some (rand_err rnd) /\
     key = rand_bytes rnd ++
           skipn (List.length (rand_bytes rnd))
             (auth.encKeyVersionByte :: zeros 15)).
Proof.
  cbv zeta. unfold auth.NewEncryptionKey, rand_Read. cbn [fst snd].
  change (array_lit 16 [auth.encKeyVersionByte])
    with (auth.encKeyVersionByte :: zeros 15).
  assert (Hlen : List.length (copy (auth.encKeyVersionByte :: zeros 15)
                                (rand_bytes rnd)) = 16%nat)
    by (rewrite copy_length; reflexivity).
  split; [exact Hlen|]. split.
  - intros Hr.
    assert (Ek : copy (auth.encKeyVersionByte :: zeros 15) (rand_bytes rnd)
                 = firstn 16 (rand_bytes rnd)).
    { unfold copy.
      change (List.length (auth.encKeyVersionByte :: zeros 15)) with 16%nat.
      rewrite Nat.min_l by exact Hr.
      change (skipn 16 (auth.encKeyVersionByte :: zeros 15)) with (@nil byte).
      apply app_nil_r. }
    split; [|split].
    + change (List.length (auth.encKeyVersionByte :: zeros 15)) with 16%nat.
      destruct (Nat.leb_spec 16 (List.length (rand_bytes rnd)));
        [reflexivity | lia].
    + exact Ek.
    + intros k0 Hk0. apply FromBase32_ToBase32; [exact Hlen | exact Hk0].
  - intros Hr. split.
    + change (List.length (auth.encKeyVersionByte :: zeros 15)) with 16%nat.
      destruct (Nat.leb_spec 16 (List.length (rand_bytes rnd)));
        [lia | reflexivity].
    + unfold copy.
      change (List.length (auth.encKeyVersionByte :: zeros 15)) with 16%nat.
      rewrite Nat.min_r by lia. rewrite firstn_all. reflexivity.
Qed.

Lemma NewEncryptionKey_result_witness :
  auth.NewEncryptionKey sample.rnd1 = (repeat x5a 16, None).
Proof.
  destruct (NewEncryptionKey_result sample.unicode sample.unicode sample.rnd1)
    as (_ & Hok & _).
  destruct (Hok ltac:(cbn; lia)) as (Herr & Hkey & _).
  rewrite (surjective_pairing (auth.NewEncryptionKey sample.rnd1)).
  rewrite Herr, Hkey. reflexivity.
Defined.

(** X9. [ToStorjKey] always returns 32 bytes, and on 16-byte keys it is
    injective: different encryption keys give different cipher keys. *)
Theorem ToStorjKey_injective (k k' : auth.EncryptionKey) :
  List.length (auth.ToStorjKey k) = 32%nat /\
  (List.length k = 16%nat -> List.length k' = 16%nat ->
   auth.ToStorjKey k = auth.ToStorjKey k' -> k = k').
Proof.
  split.
  - unfold auth.ToStorjKey. rewrite copy_length. reflexivity.
  - intros Hk Hk' E.
    rewrite (db_facts.ToStorjKey_16 k Hk), (db_facts.ToStorjKey_16 k' Hk') in E.
    apply app_inv_tail in E. exact E.
Qed.

Lemma ToStorjKey_injective_witness :
  List.length (auth.ToStorjKey sample.key1) = 32%nat /\
  sample.key1 = firstn 16 (auth.ToStorjKey sample.key1).
Proof.
  destruct (ToStorjKey_injective sample.key1
              (firstn 16 (auth.ToStorjKey sample.key1))) as [Hl Hi].
  split; [exact Hl|].
  apply Hi; reflexivity.
Defined.

End codec_more.

(** ** The early flag lookup of the gateway command *)

Module gateway_facts.
Import gateway.

Lemma findBoolFlagEarly_skip flag arg rest :
  HasPrefix arg ("--" +:+ flag) = false ->
  findBoolFlagEarly_from flag (arg :: rest) = findBoolFlagEarly_from flag rest.
Proof. intros Hp. cbn [findBoolFlagEarly_from]. rewrite Hp. reflexivity. Qed.

(** X10. [findBoolFlagEarly] returns true only when some argument starts
    with ["--"] and the name of the flag; without such an argument, and so
    for an empty argument list, it returns false. *)
Theorem findBoolFlagEarly_needs_flag (os_Args : list string) flag :
  findBoolFlagEarly os_Args flag = true ->
  exists arg, In arg os_Args /\ HasPrefix arg ("--" +:+ flag) = true.
Proof.
  unfold findBoolFlagEarly.
  induction os_Args as [|arg rest IH]; intros Hf; [discriminate Hf|].
  destruct (HasPrefix arg ("--" +:+ flag)) eqn:Hp.
  - exists arg. split; [left; reflexivity | exact Hp].
  - rewrite (findBoolFlagEarly_skip flag arg rest Hp) in Hf.
    destruct (IH Hf) as (a & Ha & Hpa).
    exists a. split; [right; exact Ha | exact Hpa].
Qed.

Lemma findBoolFlagEarly_needs_flag_witness :
  exists arg,
    In arg ["gateway"; "run"; "--advanced"; "-h"] /\
    HasPrefix arg ("--" +:+ "advanced") = true.
Proof.
  exact (findBoolFlagEarly_needs_flag
           ["gateway"; "run"; "--advanced"; "-h"] "advanced" eq_refl).
Defined.

(** X11. The first argument that starts with ["--"] and the name decides,
    unless it starts with ["--name=false"]: the result is false when the
    argument after it is ["false"]; otherwise it is true when the argument
    does not start with ["--name=false"], and when it does the search goes
    on behind it.  The argument need not be the flag itself: every argument
    with that prefix counts. *)
Theorem findBoolFlagEarly_first_match (pre : list string) arg rest flag :
  Forall (fun a => HasPrefix a ("--" +:+ flag) = false) pre ->
  HasPrefix arg ("--" +:+ flag) = true ->
  findBoolFlagEarly (pre ++ arg :: rest) flag
  = if match rest with
       | next :: _ => String.eqb next "false"
       | [] => false
       end
    then false
    else if HasPrefix arg ("--" +:+ flag +:+ "=false")
         then findBoolFlagEarly rest flag
         else true.
Proof.
  unfold findBoolFlagEarly. intros Hpre Harg.
  induction Hpre as [|a pre Ha _ IH].
  - cbn [app findBoolFlagEarly_from]. rewrite Harg. cbn [negb].
    destruct (match rest with
              | [] => false
              | next :: _ => (next =? "false")%string
              end); [reflexivity|].
    destruct (HasPrefix arg ("--" +:+ flag +:+ "=false")); reflexivity.
  - cbn [app]. rewrite (findBoolFlagEarly_skip flag a _ Ha). exact IH.
Qed.

Lemma findBoolFlagEarly_first_match_witness :
  findBoolFlagEarly
    (["gateway"; "run"] ++ "--advanced=false" :: ["--advanced-help"]) "advanced"
  = true.
Proof.
  rewrite (findBoolFlagEarly_first_match ["gateway"; "run"] "--advanced=false"
             ["--advanced-help"] "advanced").
  - reflexivity.
  - repeat constructor.
  - reflexivity.
Defined.

End gateway_facts.

(** ** More on the database *)

Module db_more.
Import auth store contract notions db_facts.

Section more.

Variable Sum256 : list byte -> list byte.
Variable ParseAccess : string -> result access2.Access.
Variable ParseNodeURL : string -> result storj.NodeURL.
Variables Encrypt Decrypt :
  list byte -> storj.CipherSuite -> list byte -> list byte ->
  result (list byte).
Context {S : Type} `{KV S}.

#[local] Abbreviation Put := (auth.Put Sum256 ParseAccess ParseNodeURL Encrypt).
#[local] Abbreviation Get := (auth.Get Sum256 Decrypt).
#[local] Abbreviation Delete := (auth.Delete Sum256).
#[local] Abbreviation Invalidate := (auth.Invalidate Sum256).
#[local] Abbreviation Hash := (auth.Hash Sum256).

(** The store's get at a key hash whose entry is the same in two states. *)
Lemma kv_Get_same_at `{!Contract S} (st st' : S) h rec :
  kv_view st' !! h = kv_view st !! h ->
  kv_Get st h = (Some rec, None) -> kv_Get st' h = (Some rec, None).
Proof.
  intros Ev Eg.
  destruct (kv_view st !! h) as [[r [reason|]]|] eqn:Eh.
  - destruct (kv_get_invalid st h r reason Eh) as [err Ee].
    rewrite Ee in Eg. discriminate Eg.
  - pose proof (kv_get_live st h r Eh) as El.
    rewrite El in Eg. injection Eg as ->.
    apply kv_get_live. exact Ev.
  - rewrite (kv_get_absent st h Eh) in Eg. discriminate Eg.
Qed.

Lemma Get_absent `{!Contract S} (db : Database) k :
  kv_view (kv db) !! Hash k = None ->
  Get db k
  = ("", false, zeros 32,
     Some (errs.Class_New NotFound ("key hash: " +:+ fmt_x (Hash k)))).
Proof.
  intros Hv. unfold auth.Get. rewrite (kv_get_absent _ _ Hv). reflexivity.
Qed.

Lemma Get_kept `{!Contract S} (db db' : Database) k g p s :
  kv_view (kv db') !! Hash k = kv_view (kv db) !! Hash k ->
  Get db k = (g, p, s, None) -> Get db' k = (g, p, s, None).
Proof.
  intros Hv Eg. rewrite <- Eg. apply Get_congr.
  destruct (Get_ok_inv _ _ _ _ _ _ _ Eg) as (rec & _ & _ & Ekv & _).
  rewrite Ekv. exact (kv_Get_same_at (kv db) (kv db') (Hash k) rec Hv Ekv).
Qed.

Lemma skipn_zeros n m : skipn n (zeros m) = zeros (m - n).
Proof.
  unfold zeros. revert m. induction n as [|n IH]; intros m.
  - rewrite Nat.sub_0_r. reflexivity.
  - destruct m as [|m]; [reflexivity|]. cbn [repeat skipn]. apply IH.
Qed.

Lemma copy_zeros_32 (bs : list byte) :
  (32 <= List.length bs)%nat -> copy (zeros 32) bs = firstn 32 bs.
Proof.
  intros Hl. unfold copy.
  replace (List.length (zeros 32)) with 32%nat by reflexivity.
  rewrite Nat.min_l by exact Hl. rewrite skipn_zeros. apply app_nil_r.
Qed.

Lemma Put_ok_rand (db db' : Database) k g p rnd s :
  Put db k g p rnd = ((s, None), db') ->
  (32 <= List.length (rand_bytes rnd))%nat.
Proof.
  unfold auth.Put, rand_Read. intros E.
  destruct (ParseAccess g); [|discriminate E].
  destruct (ParseNodeURL _); [|discriminate E].
  destruct (negb _); [discriminate E|].
  change (List.length (zeros 32)) with 32%nat in E.
  destruct (Nat.leb_spec 32 (List.length (rand_bytes rnd))) as [Hl|Hl];
    [exact Hl | discriminate E].
Qed.

(** *** Properties of the database *)

(** X12. Whatever [Put] is given and however it ends, the allow-list is the
    same after it, and the store is either untouched or was changed by one
    call of its put, on the record of a grant that parsed and whose satellite
    has its address component on the allow-list. *)
Theorem Put_touches_store_only_for_allowed (db db' : Database) k g p rnd res :
  Put db k g p rnd = (res, db') ->
  allowedSatelliteAddresses db' = allowedSatelliteAddresses db /\
  (kv db' = kv db \/
   exists access url esk eag,
     ParseAccess g = Ok access /\
     ParseNodeURL (access2.SatelliteAddress access) = Ok url /\
     storj.Address url ∈ allowedSatelliteAddresses db /\
     kv db' = snd (kv_Put (kv db) (Hash k) (record_of access esk eag p))).
Proof.
  intros E.
  destruct (Put_persists_only_allowed _ _ _ _ _ _ _ _ _ _ _ E)
    as [-> | (access & url & esk & eag & Ha & Hu & Hin & ->)].
  - split; [reflexivity | left; reflexivity].
  - split; [reflexivity|]. right. exists access, url, esk, eag.
    repeat split; assumption.
Qed.

(** X13. The secret key that [Put] and [Get] return always has 32 bytes.
    [Get] does not check the length of what the cipher opens: it returns the
    first 32 bytes of it, filled up with zeros. *)
Theorem secret_key_32 (db : Database) k :
  (forall g p rnd, List.length (fst (fst (Put db k g p rnd))) = 32%nat) /\
  (forall g p s err, Get db k = (g, p, s, err) -> List.length s = 32%nat) /\
  (forall g p s,
      Get db k = (g, p, s, None) ->
      exists rec sk,
        kv_Get (kv db) (Hash k) = (Some rec, None) /\
        Decrypt (EncryptedSecretKey rec) storj.EncAESGCM (ToStorjKey k)
          nonce_secret = Ok sk /\
        s = firstn 32 sk ++ zeros (32 - List.length sk)).
Proof.
  split; [|split].
  - intros g p rnd. unfold auth.Put, rand_Read.
    destruct (ParseAccess g); [|reflexivity].
    destruct (ParseNodeURL _); [|reflexivity].
    destruct (negb _); [reflexivity|].
    destruct (_ <=? _)%nat; [|apply copy_length].
    destruct (Encrypt (copy _ _) _ _ _); [|apply copy_length].
    destruct (Encrypt (bytes_of g) _ _ _); [|apply copy_length].
    destruct (kv_Put _ _ _) as [[err|] kv']; apply copy_length.
  - intros g p s err. unfold auth.Get.
    destruct (kv_Get _ _) as [[rec|] [e|]]; try (intros [= _ _ <- _]; reflexivity).
    destruct (Decrypt (EncryptedSecretKey rec) _ _ _);
      [|intros [= _ _ <- _]; reflexivity].
    destruct (Decrypt (EncryptedAccessGrant rec) _ _ _);
      intros [= _ _ <- _]; apply copy_length.
  - intros g p s Eg.
    destruct (Get_ok_inv _ _ _ _ _ _ _ Eg) as (rec & sk & ag & Ekv & Es & _ & _ & _ & ->).
    exists rec, sk. split; [exact Ekv|]. split; [exact Es|].
    unfold copy. replace (List.length (zeros 32)) with 32%nat by reflexivity.
    destruct (Nat.le_gt_cases 32 (List.length sk)) as [Hl|Hl].
    + rewrite Nat.min_l by exact Hl. rewrite skipn_zeros.
      replace (32 - List.length sk)%nat with (32 - 32)%nat by lia. reflexivity.
    + rewrite Nat.min_r by lia.
      rewrite firstn_all, firstn_all2 by lia.
      rewrite skipn_zeros. reflexivity.
Qed.

(** X14. With a store that honours its contract, [Delete(k)] succeeds and
    keeps the allow-list, and a [Get(k)] after it returns an error of class
    [NotFound] and no grant, flag or secret key, whether or not there was a
    record. *)
Theorem Delete_then_Get `{!Contract S} (db : Database) k :
  exists db',
    Delete db k = (None, db') /\
    allowedSatelliteAddresses db' = allowedSatelliteAddresses db /\
    exists e,
      Get db' k = ("", false, zeros 32, Some e) /\
      errs.Has NotFound e = true.
Proof.
  destruct (kv_delete_ok (kv db) (Hash k)) as (st' & Ed & Hv).
  exists (with_kv db st'). split; [|split].
  - unfold auth.Delete. rewrite Ed. reflexivity.
  - reflexivity.
  - eexists. split.
    + apply Get_absent. cbn [kv with_kv]. rewrite Hv. apply lookup_delete_eq.
    + apply Has_Class_New.
Qed.

(** X15. With a store that honours its contract, [Invalidate(k, reason)]
    after a successful [Put(k, g, p)] succeeds, and a [Get(k)] after it
    returns the store's error, wrapped, and no grant, flag or secret key. *)
Theorem Invalidate_after_Put `{!Contract S} (db db1 : Database) k g p rnd s
    reason :
  Put db k g p rnd = ((s, None), db1) ->
  exists db2 e,
    Invalidate db1 k reason = (None, db2) /\
    kv_Get (kv db2) (Hash k) = (None, Some e) /\
    Get db2 k = ("", false, zeros 32, Some (errs.Wrap e)).
Proof.
  intros Ep.
  destruct (Put_ok_inv _ _ _ _ _ _ _ _ _ _ _ Ep)
    as (access & url & esk & eag & _ & _ & _ & _ & _ & _ & Ekv & _).
  apply kv_put_ok in Ekv.
  destruct (kv_invalidate_ok (kv db1) (Hash k) reason) as (st2 & Ei & Hv).
  assert (Hinv : kv_view st2 !! Hash k
                 = Some {| entry_record := record_of access esk eag p;
                           entry_invalid := Some reason |}).
  { rewrite Hv, lookup_alter_eq, Ekv, lookup_insert_eq. reflexivity. }
  destruct (kv_get_invalid st2 (Hash k) _ _ Hinv) as [e Ee].
  exists (with_kv db1 st2), e. split; [|split].
  - unfold auth.Invalidate. rewrite Ei. reflexivity.
  - exact Ee.
  - unfold auth.Get. cbn [kv with_kv]. rewrite Ee. reflexivity.
Qed.

(** X16. Operations on one key leave the other keys alone: with a store
    that honours its contract, a [Get(k')] that succeeded returns the same
    grant, flag and secret key after a successful [Put(k, ...)], after
    [Delete(k)] and after [Invalidate(k, ...)], when the hashes of [k] and
    [k'] differ. *)
Theorem other_keys_untouched `{!Contract S} (db : Database) k k' g' p' s' :
  Hash k <> Hash k' ->
  Get db k' = (g', p', s', None) ->
  (forall g p rnd s db',
      Put db k g p rnd = ((s, None), db') ->
      Get db' k' = (g', p', s', None)) /\
  Get (snd (Delete db k)) k' = (g', p', s', None) /\
  (forall reason,
      Get (snd (Invalidate db k reason)) k' = (g', p', s', None)).
Proof.
  intros Hne Eg. split; [|split].
  - intros g p rnd s db' Ep.
    destruct (Put_ok_inv _ _ _ _ _ _ _ _ _ _ _ Ep)
      as (access & url & esk & eag & _ & _ & _ & _ & _ & _ & Ekv & _).
    apply kv_put_ok in Ekv.
    apply (Get_kept db db' k' g' p' s'); [|exact Eg].
    rewrite Ekv. apply lookup_insert_ne. exact Hne.
  - destruct (kv_delete_ok (kv db) (Hash k)) as (st' & Ed & Hv).
    unfold auth.Delete. rewrite Ed. cbn [snd].
    apply (Get_kept db (with_kv db st') k' g' p' s'); [|exact Eg].
    cbn [kv with_kv]. rewrite Hv. apply lookup_delete_ne. exact Hne.
  - intros reason.
    destruct (kv_invalidate_ok (kv db) (Hash k) reason) as (st' & Ei & Hv).
    unfold auth.Invalidate. rewrite Ei. cbn [snd].
    apply (Get_kept db (with_kv db st') k' g' p' s'); [|exact Eg].
    cbn [kv with_kv]. rewrite Hv. apply lookup_alter_ne. exact Hne.
Qed.

(** X17. [NewDatabase] keeps the given strings as a set: two lists with the
    same elements, in whatever order and with whatever repetitions, give the
    same allow-list.  With an empty list every [Put] fails and leaves the
    database as it was. *)
Theorem NewDatabase_set (st : S) (l l' : list string) :
  ((forall a, a ∈ l <-> a ∈ l') ->
   allowedSatelliteAddresses (NewDatabase st l)
   = allowedSatelliteAddresses (NewDatabase st l')) /\
  (forall k g p rnd,
      exists s err,
        Put (NewDatabase st []) k g p rnd = ((s, Some err), NewDatabase st [])).
Proof.
  split.
  - intros Hll. apply set_eq. intros a.
    rewrite !(NewDatabase_allowed ParseAccess ParseNodeURL). apply Hll.
  - intros k g p rnd.
    destruct (ParseAccess g) as [access|e] eqn:Ha.
    2:{ eexists _, _. unfold auth.Put. rewrite Ha. reflexivity. }
    destruct (ParseNodeURL (access2.SatelliteAddress access)) as [url|e] eqn:Hu.
    2:{ eexists _, _. unfold auth.Put. rewrite Ha, Hu. reflexivity. }
    eexists _, _.
    apply (Put_disallowed Sum256 ParseAccess ParseNodeURL Encrypt
             (NewDatabase st []) k g p rnd access url Ha Hu).
    rewrite (NewDatabase_allowed ParseAccess ParseNodeURL).
    apply not_elem_of_nil.
Qed.

(** X18. [RemoveNodeIDs] returns the address components of the entries, one
    for each entry and in their order, with no error, when every entry
    parses; otherwise it returns no list and the error of the first entry
    that does not parse. *)
Theorem RemoveNodeIDs_result (ss : list string) :
  (forall p,
      RemoveNodeIDs ParseNodeURL ss = (p, None) <->
      Forall2 (fun s a => exists u, ParseNodeURL s = Ok u /\ a = storj.Address u)
        ss p) /\
  (forall p e,
      RemoveNodeIDs ParseNodeURL ss = (p, Some e) ->
      p = [] /\
      exists pre s rest,
        ss = pre ++ s :: rest /\
        Forall (fun s' => exists u, ParseNodeURL s' = Ok u) pre /\
        ParseNodeURL s = Err e).
Proof.
  unfold RemoveNodeIDs.
  assert (Hok : forall ss acc p,
    RemoveNodeIDs_from ParseNodeURL ss acc = (p, None) <->
    exists q, p = acc ++ q /\
      Forall2 (fun s a => exists u, ParseNodeURL s = Ok u /\ a = storj.Address u)
        ss q).
  { clear ss. induction ss as [|s ss IH]; intros acc p; cbn [RemoveNodeIDs_from].
    - split.
      + intros [= <-]. exists []. split; [symmetry; apply app_nil_r | constructor].
      + intros (q & -> & Hq). inversion Hq. rewrite app_nil_r. reflexivity.
    - destruct (ParseNodeURL s) as [url|e] eqn:Eu.
      + rewrite IH. split.
        * intros (q & -> & Hq). exists (storj.Address url :: q).
          split; [rewrite <- app_assoc; reflexivity|].
          constructor; [|exact Hq]. exists url. split; [exact Eu | reflexivity].
        * intros (q & -> & Hq). inversion Hq as [|? a ? q' (u & Hu & ->) Hq']; subst.
          exists q'. split; [|exact Hq'].
          rewrite <- app_assoc. cbn [app]. congruence.
      + split; [discriminate|].
        intros (q & _ & Hq). inversion Hq as [|? a ? q' (u & Hu & _) _]; subst.
        congruence. }
  assert (Herr : forall ss acc p e,
    RemoveNodeIDs_from ParseNodeURL ss acc = (p, Some e) ->
    p = [] /\
    exists pre s rest,
      ss = pre ++ s :: rest /\
      Forall (fun s' => exists u, ParseNodeURL s' = Ok u) pre /\
      ParseNodeURL s = Err e).
  { clear ss Hok. induction ss as [|s ss IH]; intros acc p e;
      cbn [RemoveNodeIDs_from]; [discriminate|].
    destruct (ParseNodeURL s) as [url|e'] eqn:Eu.
    - intros E. destruct (IH _ _ _ E) as (-> & pre & s' & rest & -> & Hpre & He).
      split; [reflexivity|]. exists (s :: pre), s', rest.
      split; [reflexivity|]. split; [|exact He].
      constructor; [exists url; exact Eu | exact Hpre].
    - intros [= <- <-]. split; [reflexivity|]. exists [], s, ss.
      split; [reflexivity|]. split; [constructor | exact Eu]. }
  split.
  - intros p. rewrite Hok. split.
    + intros (q & -> & Hq). exact Hq.
    + intros Hq. exists p. split; [reflexivity | exact Hq].
  - intros p e. apply Herr.
Qed.

(** X19. What a successful [Put] returns and stores: the random source
    delivered 32 bytes and the secret key is the first 32 of its bytes; with
    a store that honours its contract, the record under the hash of the key
    is live and holds the satellite address as the grant has it, the head of
    the API key, the secret key sealed under the nonce of zeros, the grant
    sealed under the nonce that starts with 1, and the flag; every other
    entry of the store and the allow-list are as before. *)
Theorem Put_success `{!Contract S} (db db' : Database) k g p rnd s :
  Put db k g p rnd = ((s, None), db') ->
  (32 <= List.length (rand_bytes rnd))%nat /\
  s = firstn 32 (rand_bytes rnd) /\
  allowedSatelliteAddresses db' = allowedSatelliteAddresses db /\
  exists access esk eag,
    ParseAccess g = Ok access /\
    Encrypt s storj.EncAESGCM (ToStorjKey k) nonce_secret = Ok esk /\
    Encrypt (bytes_of g) storj.EncAESGCM (ToStorjKey k) nonce_grant = Ok eag /\
    kv_view (kv db') !! Hash k
    = Some (live {| SatelliteAddress := access2.SatelliteAddress access;
                    MacaroonHead := access2.APIKey_Head access;
                    EncryptedSecretKey := esk;
                    EncryptedAccessGrant := eag;
                    Public := p |}) /\
    forall h, h <> Hash k -> kv_view (kv db') !! h = kv_view (kv db) !! h.
Proof.
  intros Ep.
  pose proof (Put_ok_rand db db' k g p rnd s Ep) as Hr.
  destruct (Put_ok_inv _ _ _ _ _ _ _ _ _ _ _ Ep)
    as (access & url & esk & eag & Ha & _ & _ & Hs & E1 & E2 & Ekv & Hal).
  apply kv_put_ok in Ekv.
  split; [exact Hr|]. split; [|split; [exact Hal|]].
  - rewrite Hs. apply copy_zeros_32. exact Hr.
  - exists access, esk, eag.
    split; [exact Ha|]. split; [exact E1|]. split; [exact E2|]. split.
    + rewrite Ekv. apply lookup_insert_eq.
    + intros h Hh. rewrite Ekv. apply lookup_insert_ne. congruence.
Qed.

(** X20. The failures of [Put] behind the allow-list check and before the
    store: for a grant that parses and whose satellite is allowed, when the
    random source delivers fewer than 32 bytes [Put] returns the error of
    the source, and when one of the two encryptions fails it returns the
    error of the cipher; in each case the error is not wrapped, the secret
    key returned holds the bytes read so far, and the database is as it
    was. *)
Theorem Put_fails_before_store (db : Database) k g p rnd access url :
  ParseAccess g = Ok access ->
  ParseNodeURL (access2.SatelliteAddress access) = Ok url ->
  storj.Address url ∈ allowedSatelliteAddresses db ->
  let s := copy (zeros 32) (rand_bytes rnd) in
  ((List.length (rand_bytes rnd) < 32)%nat ->
   Put db k g p rnd = ((s, Some (rand_err rnd)), db)) /\
  (forall e,
      (32 <= List.length (rand_bytes rnd))%nat ->
      Encrypt s storj.EncAESGCM (ToStorjKey k) nonce_secret = Err e ->
      Put db k g p rnd = ((s, Some e), db)) /\
  (forall esk e,
      (32 <= List.length (rand_bytes rnd))%nat ->
      Encrypt s storj.EncAESGCM (ToStorjKey k) nonce_secret = Ok esk ->
      Encrypt (bytes_of g) storj.EncAESGCM (ToStorjKey k) nonce_grant = Err e ->
      Put db k g p rnd = ((s, Some e), db)).
Proof.
  intros Ha Hu Hin s.
  split; [|split].
  - intros Hr. unfold auth.Put.
    rewrite Ha, Hu, bool_decide_true by exact Hin. cbn [negb].
    unfold rand_Read. change (List.length (zeros 32)) with 32%nat.
    replace (32 <=? List.length (rand_bytes rnd))%nat with false
      by (symmetry; apply Nat.leb_gt; exact Hr).
    reflexivity.
  - intros e Hr E1. unfold auth.Put.
    rewrite Ha, Hu, bool_decide_true by exact Hin. cbn [negb].
    unfold rand_Read. change (List.length (zeros 32)) with 32%nat.
    replace (32 <=? List.length (rand_bytes rnd))%nat with true
      by (symmetry; apply Nat.leb_le; exact Hr).
    fold s. rewrite E1. reflexivity.
  - intros esk e Hr E1 E2. unfold auth.Put.
    rewrite Ha, Hu, bool_decide_true by exact Hin. cbn [negb].
    unfold rand_Read. change (List.length (zeros 32)) with 32%nat.
    replace (32 <=? List.length (rand_bytes rnd))%nat with true
      by (symmetry; apply Nat.leb_le; exact Hr).
    fold s. rewrite E1, E2. reflexivity.
Qed.

End more.
End db_more.

(** ** Further runs on the sample libraries *)

Module examples_more.
Import auth store contract notions scenario.

#[local] Abbreviation Put :=
  (auth.Put sample.Sum256 sample.ParseAccess sample.ParseNodeURL sample.Encrypt).
#[local] Abbreviation Get := (auth.Get sample.Sum256 sample.Decrypt).
#[local] Abbreviation Hash := (auth.Hash sample.Sum256).

Lemma Get_db1 : Get db1 sample.key1 = (grant1, false, secret1, None).
Proof.
  exact (db_facts.Put_then_Get sample.Sum256 sample.ParseAccess
           sample.ParseNodeURL sample.Encrypt sample.Decrypt
           db0 db1 sample.key1 grant1 false sample.rnd1 secret1
           examples.sample_aead examples.Put1).
Qed.

Lemma Put_touches_store_only_for_allowed_witness :
  allowedSatelliteAddresses db1 = allowedSatelliteAddresses db0.
Proof.
  exact (proj1 (db_more.Put_touches_store_only_for_allowed sample.Sum256
                  sample.ParseAccess sample.ParseNodeURL sample.Encrypt
                  db0 db1 sample.key1 grant1 false sample.rnd1 _
                  examples.Put1)).
Defined.

Lemma secret_key_32_witness :
  List.length (fst (fst (Put db0 sample.key1 grant3 true sample.rnd1)))
  = 32%nat /\
  List.length secret1 = 32%nat.
Proof.
  destruct (db_more.secret_key_32 sample.Sum256 sample.ParseAccess
              sample.ParseNodeURL sample.Encrypt sample.Decrypt
              db1 sample.key1) as (_ & Hget & _).
  split.
  - exact (proj1 (db_more.secret_key_32 sample.Sum256 sample.ParseAccess
                    sample.ParseNodeURL sample.Encrypt sample.Decrypt
                    db0 sample.key1) grant3 true sample.rnd1).
  - exact (Hget grant1 false secret1 None Get_db1).
Defined.

Lemma Delete_then_Get_witness :
  exists db',
    auth.Delete sample.Sum256 db1 sample.key1 = (None, db') /\
    allowedSatelliteAddresses db' = allowedSatelliteAddresses db1 /\
    exists e,
      Get db' sample.key1 = ("", false, zeros 32, Some e) /\
      errs.Has NotFound e = true.
Proof.
  exact (db_more.Delete_then_Get sample.Sum256 sample.Decrypt db1 sample.key1).
Defined.

Lemma Invalidate_after_Put_witness :
  exists db2 e,
    auth.Invalidate sample.Sum256 db1 sample.key1 "abuse" = (None, db2) /\
    kv_Get (kv db2) (Hash sample.key1) = (None, Some e) /\
    Get db2 sample.key1 = ("", false, zeros 32, Some (errs.Wrap e)).
Proof.
  exact (db_more.Invalidate_after_Put sample.Sum256 sample.ParseAccess
           sample.ParseNodeURL sample.Encrypt sample.Decrypt
           db0 db1 sample.key1 grant1 false sample.rnd1 secret1 "abuse"
           examples.Put1).
Defined.

Lemma other_keys_untouched_witness :
  Get (snd (auth.Delete sample.Sum256 db1 (repeat x07 16))) sample.key1
  = (grant1, false, secret1, None).
Proof.
  assert (Hne : Hash (repeat x07 16) <> Hash sample.key1) by discriminate.
  exact (proj1 (proj2 (db_more.other_keys_untouched sample.Sum256
                         sample.ParseAccess sample.ParseNodeURL sample.Encrypt
                         sample.Decrypt db1 (repeat x07 16) sample.key1
                         grant1 false secret1 Hne Get_db1))).
Defined.

Lemma NewDatabase_set_witness :
  allowedSatelliteAddresses
    (NewDatabase (∅ : gmap KeyHash Entry) ["a:1"; "b:2"])
  = allowedSatelliteAddresses
      (NewDatabase (∅ : gmap KeyHash Entry) ["b:2"; "a:1"; "b:2"]).
Proof.
  apply (proj1 (db_more.NewDatabase_set sample.Sum256 sample.ParseAccess
                  sample.ParseNodeURL sample.Encrypt
                  (∅ : gmap KeyHash Entry) ["a:1"; "b:2"] ["b:2"; "a:1"; "b:2"])).
  intros a. rewrite !elem_of_cons, !elem_of_nil. tauto.
Defined.

Lemma RemoveNodeIDs_result_witness :
  Forall2 (fun s a => exists u, sample.ParseNodeURL s = Ok u /\ a = storj.Address u)
    configured ["sat1.example:7777"; "sat2.example:7777"].
Proof.
  exact (proj1 (proj1 (db_more.RemoveNodeIDs_result sample.ParseNodeURL
                         configured)
                  ["sat1.example:7777"; "sat2.example:7777"]) eq_refl).
Defined.

Lemma Put_success_witness :
  secret1 = firstn 32 (rand_bytes sample.rnd1) /\
  kv_view (kv db1) !! Hash sample.key1 <> None.
Proof.
  destruct (db_more.Put_success sample.Sum256 sample.ParseAccess
              sample.ParseNodeURL sample.Encrypt
              db0 db1 sample.key1 grant1 false sample.rnd1 secret1
              examples.Put1)
    as (_ & Hs & _ & access & esk & eag & _ & _ & _ & Hv & _).
  split; [exact Hs|].
  rewrite Hv. discriminate.
Defined.

Lemma Put_fails_before_store_witness :
  Put db0 sample.key1 grant1 false
    {| rand_bytes := [x01; x02; x03];
       rand_err := errs.plain "rand: no entropy" |}
  = (([x01; x02; x03] ++ zeros 29, Some (errs.plain "rand: no entropy")), db0).
Proof.
  refine (proj1 (db_more.Put_fails_before_store sample.Sum256
                   sample.ParseAccess sample.ParseNodeURL sample.Encrypt
                   db0 sample.key1 grant1 false
                   {| rand_bytes := [x01; x02; x03];
                      rand_err := errs.plain "rand: no entropy" |}
                   {| access2.SatelliteAddress := grant1;
                      access2.APIKey_Head := [] |}
                   {| storj.ID := bytes_of "9xyz";
                      storj.Address := "sat1.example:7777" |}
                   eq_refl eq_refl _) _).
  - apply (bool_decide_eq_true_1
             ("sat1.example:7777" ∈ allowedSatelliteAddresses db0)).
    vm_compute. reflexivity.
  - cbn [rand_bytes List.length]. lia.
Defined.

End examples_more.
